(** * github-wrapped: the statistics aggregator of [src/lib/github.ts]

    A shallow embedding of [rateLimit], [getAllRepositories] and
    [getGitHubStats], with the module-level cache and rate limiter as explicit
    state, the remote API as an oracle, and every observable effect (cache
    access, remote call, timer, console output) recorded in a time-stamped
    event trace. The pure aggregation comes first, then the effects and the
    three functions, then sample remotes, then the properties. *)

From Stdlib Require Import ZArith NArith QArith Lia Sorting.Sorted.
From stdpp Require Import gmap strings list fin_maps.

Local Open Scope string_scope.
Local Open Scope list_scope.
Local Open Scope Z_scope.

(** ** JavaScript numbers

    Counts delivered by the API are non-negative integers ([N]). Results of
    division are modelled as exact rationals extended with the IEEE special
    values a division can produce; rounding of finite results is idealised
    away. *)

Inductive number : Type :=
| Finite (q : Q)
| PosInf
| NegInf
| NaN.

Definition of_N (n : N) : number := Finite (inject_Z (Z.of_N n)).

(** [a / b] on two counts: [0 / 0] is [NaN], [a / 0] is [Infinity]. *)
Definition number_div (a b : N) : number :=
  match b with
  | N0 => match a with N0 => NaN | Npos _ => PosInf end
  | Npos p => Finite (Z.of_N a # p)
  end.

Definition number_mul (x y : number) : number :=
  match x, y with
  | Finite a, Finite b => Finite (a * b)
  | NaN, _ | _, NaN => NaN
  | Finite a, PosInf | PosInf, Finite a =>
      match Qnum a with Z0 => NaN | Zpos _ => PosInf | Zneg _ => NegInf end
  | Finite a, NegInf | NegInf, Finite a =>
      match Qnum a with Z0 => NaN | Zpos _ => NegInf | Zneg _ => PosInf end
  | PosInf, PosInf | NegInf, NegInf => PosInf
  | PosInf, NegInf | NegInf, PosInf => NegInf
  end.

Definition number_add (x y : number) : number :=
  match x, y with
  | Finite a, Finite b => Finite (a + b)
  | NaN, _ | _, NaN => NaN
  | PosInf, NegInf | NegInf, PosInf => NaN
  | PosInf, _ | _, PosInf => PosInf
  | NegInf, _ | _, NegInf => NegInf
  end.

Definition number_opp (x : number) : number :=
  match x with
  | Finite a => Finite (- a)
  | PosInf => NegInf
  | NegInf => PosInf
  | NaN => NaN
  end.

Definition number_sub (x y : number) : number := number_add x (number_opp y).

(** [x > 0]; false on [NaN]. *)
Definition is_positive (x : number) : bool :=
  match x with
  | Finite q => (0 <? Qnum q)%Z
  | PosInf => true
  | NegInf | NaN => false
  end.

(** Equality of numbers as values: rationals up to [Qeq]. [NaN] is related to
    nothing but is kept recognisable through [is_NaN]. *)
Definition number_eq (x y : number) : Prop :=
  match x, y with
  | Finite a, Finite b => (a == b)%Q
  | PosInf, PosInf | NegInf, NegInf => True
  | _, _ => False
  end.

Definition is_NaN (x : number) : bool :=
  match x with NaN => true | _ => false end.

(** ** Arrays

    [Array.prototype.sort(compare)] is a stable sort: [a] is moved behind [b]
    only when [compare(a, b) > 0]. *)

Section ArraySort.
Context {A : Type} (compare : A → A → number).

Fixpoint sort_insert (a : A) (l : list A) : list A :=
    match l with
    | [] => [a]
    | b :: l' =>
        if is_positive (compare a b) then b :: sort_insert a l'
        else a :: b :: l'
    end.

Definition Array_sort (l : list A) : list A := foldr sort_insert [] l.
End ArraySort.

(** ** Plain objects used as string-keyed tables

    [Object.entries] and [Object.values] enumerate the string keys of an
    object (language names here, none of them an array index) in insertion
    order, so a [Record<string, number>] whose entries are enumerated is an
    association list: assigning to a present key updates it in place,
    assigning to a new key appends. A table that is only read by key is a
    [gmap]. The association list describes the keys the object does not
    inherit: for the inherited ones see [Object_prototype_keys] below. *)

Fixpoint obj_get (k : string) (o : list (string * N)) : option N :=
  match o with
  | [] => None
  | (k', v) :: o' => if String.eqb k k' then Some v else obj_get k o'
  end.

Fixpoint obj_set (k : string) (v : N) (o : list (string * N)) : list (string * N) :=
  match o with
  | [] => [(k, v)]
  | (k', v') :: o' =>
      if String.eqb k k' then (k, v) :: o' else (k', v') :: obj_set k v o'
  end.

(** [x || 0] on an optional count. *)
Definition or0 (x : option N) : N :=
  match x with Some n => n | None => 0%N end.

(** Truthiness of a string: only the empty string is falsy. *)
Definition truthy (s : string) : bool :=
  match s with EmptyString => false | String _ _ => true end.

(** ** Remote API responses *)

Module History.
Record t := mk { totalCount : N }.
End History.

(** The [... on Commit] fragment yields no [history] field when the target of
    the ref is not a commit. *)
Module GitObject.
Record t := mk { history : option History.t }.
End GitObject.

Module Ref.
Record t := mk { target : option GitObject.t }.
End Ref.

Module Language.
Record t := mk { name : string }.
End Language.

Module Repository.
Record t := mk {
    nameWithOwner : string;
    isPrivate : bool;
    url : string;
    description : option string;
    primaryLanguage : option Language.t;
    stargazerCount : N;
    defaultBranchRef : option Ref.t
  }.
End Repository.

Module PageInfo.
Record t := mk { hasNextPage : bool; endCursor : option string }.
End PageInfo.

Module RepositoryConnection.
Record t := mk { nodes : list Repository.t; pageInfo : PageInfo.t }.
End RepositoryConnection.

Module ContributionDay.
Record t := mk { contributionCount : N; date : string; weekday : N }.
End ContributionDay.

Module Week.
Record t := mk { contributionDays : list ContributionDay.t }.
End Week.

(** The fields of the contributions query that [getGitHubStats] reads. The
    query also requests [commitContributionsByRepository] and a first page of
    [repositories]; neither is read afterwards. *)
Module ContributionsCollection.
Record t := mk {
    totalCommitContributions : N;
    totalIssueContributions : N;
    totalPullRequestContributions : N;
    totalPullRequestReviewContributions : N;
    weeks : list Week.t
  }.
End ContributionsCollection.

(** [(await octokit.users.getAuthenticated()).data] *)
Module AuthenticatedUser.
Record t := mk { login : string; avatar_url : string }.
End AuthenticatedUser.

(** ** The report *)

Module RepoStats.
Record t := mk {
    name : string;
    commits : N;
    stars : N;
    url : string;
    description : option string;
    language : option string;
    contributions : N;
    isPrivate : bool
  }.
End RepoStats.

Module DayCount.
Record t := mk { day : string; count : N }.
End DayCount.

Module TypeCount.
Record t := mk { type : string; count : N }.
End TypeCount.

Module LanguageShare.
Record t := mk { name : string; percentage : number }.
End LanguageShare.

Module ReportUser.
Record t := mk { login : string; avatarUrl : string }.
End ReportUser.

Module Report.
Record t := mk {
    repos : list RepoStats.t;
    totalCommits : N;
    totalComments : N;
    totalReviews : N;
    totalRepos : N;
    activeDays : N;
    contributionsByDay : list DayCount.t;
    contributionsByType : list TypeCount.t;
    languages : list LanguageShare.t;
    user : ReportUser.t
  }.
End Report.

(** ** The aggregation of [getGitHubStats] (lines 182-280)

    The host's [Date.prototype.toLocaleDateString("en-US", {weekday: "long"})]
    depends on the time zone and locale data of the process; it is a
    parameter. *)

Section Aggregation.
Variable toLocaleDateString : string → string.

  (** Lines 186-200: the two accumulators filled by the nested [forEach]. *)
Definition visit_day (acc : gmap string N * gset string) (day : ContributionDay.t)
    : gmap string N * gset string :=
    let '(dailyContributions, activeDaysSet) := acc in
    if (0 <? ContributionDay.contributionCount day)%N then
      let dayKey := toLocaleDateString (ContributionDay.date day) in
      (<[dayKey := (or0 (dailyContributions !! dayKey)
                    + ContributionDay.contributionCount day)%N]> dailyContributions,
       {[ContributionDay.date day]} ∪ activeDaysSet)
    else acc.

Definition visit_week (acc : gmap string N * gset string) (week : Week.t)
    : gmap string N * gset string :=
    fold_left visit_day (Week.contributionDays week) acc.

Definition visit_calendar (weeks : list Week.t) : gmap string N * gset string :=
    fold_left visit_week weeks (∅, ∅).

  (** Line 218 and line 223: [repo.defaultBranchRef?.target?.history?.totalCount]. *)
Definition history_totalCount (repo : Repository.t) : option N :=
    ref ← Repository.defaultBranchRef repo;
    target ← Ref.target ref;
    history ← GitObject.history target;
    Some (History.totalCount history).

  (** Line 222: [repo.primaryLanguage?.name || null]. *)
Definition language_of (repo : Repository.t) : option string :=
    match Repository.primaryLanguage repo with
    | Some l => if truthy (Language.name l) then Some (Language.name l) else None
    | None => None
    end.

  (** Lines 216-225. *)
Definition repoStat (repo : Repository.t) : RepoStats.t :=
    {| RepoStats.name := Repository.nameWithOwner repo;
       RepoStats.commits := or0 (history_totalCount repo);
       RepoStats.stars := Repository.stargazerCount repo;
       RepoStats.url := Repository.url repo;
       RepoStats.description := Repository.description repo;
       RepoStats.language := language_of repo;
       RepoStats.contributions := or0 (history_totalCount repo);
       RepoStats.isPrivate := Repository.isPrivate repo |}.

  (** Lines 228-234. *)
Definition count_language (languageStats : list (string * N)) (repo : RepoStats.t)
    : list (string * N) :=
    match RepoStats.language repo with
    | Some language =>
        if truthy language then
          obj_set language
            (or0 (obj_get language languageStats) + RepoStats.commits repo)%N
            languageStats
        else languageStats
    | None => languageStats
    end.

Definition languageStats_of (repoStats : list RepoStats.t) : list (string * N) :=
    fold_left count_language repoStats [].

  (** Lines 236-239. *)
Definition totalLanguageCommits_of (languageStats : list (string * N)) : N :=
    fold_left (fun sum count => (sum + count)%N) (map snd languageStats) 0%N.

  (** Lines 240-245. *)
Definition share (totalLanguageCommits : N) (entry : string * N) : LanguageShare.t :=
    {| LanguageShare.name := fst entry;
       LanguageShare.percentage :=
         number_mul (number_div (snd entry) totalLanguageCommits) (of_N 100) |}.

Definition languages_of (languageStats : list (string * N)) : list LanguageShare.t :=
    Array_sort
      (fun a b => number_sub (LanguageShare.percentage b) (LanguageShare.percentage a))
      (map (share (totalLanguageCommits_of languageStats)) languageStats).

  (** Lines 248-260. *)
Definition daysOrder : list string :=
    ["Monday"; "Tuesday"; "Wednesday"; "Thursday"; "Friday"; "Saturday"; "Sunday"].

Definition contributionsByDay_of (dailyContributions : gmap string N) : list DayCount.t :=
    map (fun day => {| DayCount.day := day;
                       DayCount.count := or0 (dailyContributions !! day) |})
        daysOrder.

  (** Line 263. *)
Definition by_commits_desc (a b : RepoStats.t) : number :=
    number_sub (of_N (RepoStats.commits b)) (of_N (RepoStats.commits a)).

  (** Lines 262-280. [who] and [who'] are the identities returned by the two
      [getAuthenticated] calls inside the object literal. *)
Definition result_of (collection : ContributionsCollection.t)
      (allRepositories : list Repository.t)
      (who who' : AuthenticatedUser.t) : Report.t :=
    let '(dailyContributions, activeDaysSet) :=
      visit_calendar (ContributionsCollection.weeks collection) in
    let totalComments := ContributionsCollection.totalIssueContributions collection in
    let totalReviews :=
      ContributionsCollection.totalPullRequestReviewContributions collection in
    let allRepoContributions :=
      ContributionsCollection.totalCommitContributions collection in
    let repoStats := map repoStat allRepositories in
    let languageStats := languageStats_of repoStats in
    let languages := languages_of languageStats in
    let contributionsByDay := contributionsByDay_of dailyContributions in
    let sorted := Array_sort by_commits_desc repoStats in
    {| Report.repos := sorted;
       Report.totalCommits := allRepoContributions;
       Report.totalComments := totalComments;
       Report.totalReviews := totalReviews;
       Report.totalRepos := N.of_nat (length sorted);
       Report.activeDays := N.of_nat (size activeDaysSet);
       Report.contributionsByDay := contributionsByDay;
       Report.contributionsByType :=
         [ {| TypeCount.type := "Commits"; TypeCount.count := allRepoContributions |};
           {| TypeCount.type := "Comments"; TypeCount.count := totalComments |};
           {| TypeCount.type := "Reviews"; TypeCount.count := totalReviews |} ];
       Report.languages := languages;
       Report.user :=
         {| ReportUser.login := AuthenticatedUser.login who;
            ReportUser.avatarUrl := AuthenticatedUser.avatar_url who' |} |}.
End Aggregation.

(** ** Effects

    A JavaScript [Error] is identified by its message. *)

Record Error := mkError { message : string }.

Inductive Event : Type :=
| CacheGet (key : string) (hit : bool)
| CacheSet (key : string)
| Timer (ms : Z)
| GetAuthenticated (auth : string) (response : Error + AuthenticatedUser.t)
| QueryContributions (auth login : string)
    (response : Error + ContributionsCollection.t)
| QueryRepositories (auth login : string) (cursor : option string)
    (response : Error + RepositoryConnection.t)
| ConsoleError (e : Error).

Module CacheEntry.
Record t := mk { key : string; value : Report.t; start : Z }.
End CacheEntry.

(** The module-level state of [github.ts] (lines 6-15) together with the
    clock read by [Date.now()] and the number of remote calls issued so far. *)
Record World := mkWorld {
  clock : Z;
  lastCall : Z;
  cache : list CacheEntry.t;
  calls : nat
}.

(** The environment of a run. A remote response may depend on the request and
    on the sequence number of the call, so that any call can fail or change
    its answer independently of the others. [latency] is the duration of a
    remote call and [timerLag] the time by which a timer fires late. *)
Record Env := mkEnv {
  users_getAuthenticated : nat → string → Error + AuthenticatedUser.t;
  graphql_contributions : nat → string → string → Error + ContributionsCollection.t;
  graphql_repositories :
    nat → string → string → option string → Error + RepositoryConnection.t;
  latency : nat → Z;
  timerLag : Z → Z;
  toLocaleDateString : string → string
}.

Inductive Outcome (A : Type) : Type :=
| Returned (a : A)
| Thrown (e : Error)
| Diverged.
Arguments Returned {A} a.
Arguments Thrown {A} e.
Arguments Diverged {A}.

(** A computation transforms the world, emits time-stamped events in
    chronological order and returns, throws, or runs out of fuel. *)
Definition M (A : Type) : Type := World → Outcome A * World * list (Z * Event).

Definition ret {A} (a : A) : M A := fun w => (Returned a, w, []).

Definition throw {A} (e : Error) : M A := fun w => (Thrown e, w, []).

Definition diverge {A} : M A := fun w => (Diverged, w, []).

Definition bind {A B} (m : M A) (k : A → M B) : M B := fun w =>
  match m w with
  | (Returned a, w1, evs1) =>
      let '(o, w2, evs2) := k a w1 in (o, w2, evs1 ++ evs2)
  | (Thrown e, w1, evs1) => (Thrown e, w1, evs1)
  | (Diverged, w1, evs1) => (Diverged, w1, evs1)
  end.

(** [try { m } catch (error) { handler error }] *)
Definition try_catch {A} (m : M A) (handler : Error → M A) : M A := fun w =>
  match m w with
  | (Thrown e, w1, evs1) =>
      let '(o, w2, evs2) := handler e w1 in (o, w2, evs1 ++ evs2)
  | r => r
  end.

Notation "'let*' x ':=' m 'in' k" := (bind m (fun x => k))
  (at level 10, x pattern, m at level 100, k at level 200).
Notation "m ';;' k" := (bind m (fun _ => k))
  (at level 100, k at level 200, right associativity).

Definition emit (ev : Event) : M unit := fun w => (Returned tt, w, [(clock w, ev)]).

Definition Date_now : M Z := fun w => (Returned (clock w), w, []).

Definition advance (ms : Z) (w : World) : World :=
  {| clock := clock w + ms; lastCall := lastCall w; cache := cache w; calls := calls w |}.

Definition after_call (ms : Z) (w : World) : World :=
  {| clock := clock w + ms; lastCall := lastCall w; cache := cache w;
     calls := S (calls w) |}.

Definition set_lastCall (t : Z) : M unit := fun w =>
  (Returned tt,
   {| clock := clock w; lastCall := t; cache := cache w; calls := calls w |}, []).

Definition set_cache (c : list CacheEntry.t) (w : World) : World :=
  {| clock := clock w; lastCall := lastCall w; cache := c; calls := calls w |}.

Section Run.
Variable env : Env.

(** [await new Promise((resolve) => setTimeout(resolve, ms))] *)
Definition await_timeout (ms : Z) : M unit := fun w =>
  (Returned tt, advance (ms + timerLag env (clock w)) w, [(clock w, Timer ms)]).

(** An awaited remote call: the response is delivered, or the rejection is
    thrown, once the call's latency has passed. *)
Definition await_remote {A} (response : Error + A) (ev : Event) : M A := fun w =>
  (match response with inl e => Thrown e | inr a => Returned a end,
   after_call (latency env (calls w)) w,
   [(clock w, ev)]).

Definition octokit_users_getAuthenticated (auth : string) : M AuthenticatedUser.t :=
  fun w =>
    let response := users_getAuthenticated env (calls w) auth in
    await_remote response (GetAuthenticated auth response) w.

Definition query_contributions (auth login : string) : M ContributionsCollection.t :=
  fun w =>
    let response := graphql_contributions env (calls w) auth login in
    await_remote response (QueryContributions auth login response) w.

Definition query_repositories (auth login : string) (cursor : option string)
  : M RepositoryConnection.t :=
  fun w =>
    let response := graphql_repositories env (calls w) auth login cursor in
    await_remote response (QueryRepositories auth login cursor response) w.

Definition console_error (e : Error) : M unit := emit (ConsoleError e).

(** *** The cache (lines 5-9)

    Modelled from the spec: the [lru-cache] package is a dependency and not
    part of the sources. Per the cache contract it holds at most 100 entries
    and evicts the least recently used one when inserting beyond capacity;
    an entry expires 5 minutes after insertion regardless of access; [get] on
    an expired or absent key returns absent. Entries are kept most recently
    used first. *)

Definition ttl : Z := 1000 * 60 * 5.

Definition max : nat := 100.

Definition has_key (key : string) (e : CacheEntry.t) : bool :=
  String.eqb key (CacheEntry.key e).

Definition is_stale (now : Z) (e : CacheEntry.t) : bool :=
  ttl <? now - CacheEntry.start e.

Definition cache_lookup (now : Z) (key : string) (c : list CacheEntry.t)
  : option CacheEntry.t :=
  match find (has_key key) c with
  | Some e => if is_stale now e then None else Some e
  | None => None
  end.

Definition without (key : string) (c : list CacheEntry.t) : list CacheEntry.t :=
  filter (fun e => negb (has_key key e)) c.

Definition cache_get (key : string) : M (option Report.t) := fun w =>
  match cache_lookup (clock w) key (cache w) with
  | Some e =>
      (Returned (Some (CacheEntry.value e)),
       set_cache (e :: without key (cache w)) w,
       [(clock w, CacheGet key true)])
  | None => (Returned None, w, [(clock w, CacheGet key false)])
  end.

Definition cache_set (key : string) (value : Report.t) : M unit := fun w =>
  (Returned tt,
   set_cache
     (take max ({| CacheEntry.key := key; CacheEntry.value := value;
                   CacheEntry.start := clock w |} :: without key (cache w))) w,
   [(clock w, CacheSet key)]).

(** *** The rate limiter (lines 11-26) *)

Definition minInterval : Z := 1000.

Definition rateLimit : M unit :=
  let* now := Date_now in
  let* timeSinceLastCall := (fun w => ret (now - lastCall w) w) in
  (if timeSinceLastCall <? minInterval
   then await_timeout (minInterval - timeSinceLastCall)
   else ret tt);;
  let* now' := Date_now in
  set_lastCall now'.

(** *** The repository lister (lines 39-92)

    One unit of fuel is spent per iteration of the [while] loop; the loop
    runs as long as the remote reports a next page. *)

Fixpoint getAllRepositories_loop (fuel : nat) (auth login : string)
    (repositories : list Repository.t) (cursor : option string)
  : M (list Repository.t) :=
  match fuel with
  | O => diverge
  | S fuel' =>
      let* user := query_repositories auth login cursor in
      let repositories' := repositories ++ RepositoryConnection.nodes user in
      let hasNextPage := PageInfo.hasNextPage (RepositoryConnection.pageInfo user) in
      let cursor' := PageInfo.endCursor (RepositoryConnection.pageInfo user) in
      if hasNextPage
      then getAllRepositories_loop fuel' auth login repositories' cursor'
      else ret repositories'
  end.

Definition getAllRepositories (fuel : nat) (auth login : string)
  : M (list Repository.t) :=
  getAllRepositories_loop fuel auth login [] None.

(** *** [getGitHubStats] (lines 94-289) *)

Inductive AccessToken : Type :=
| Undefined
| Null
| Token (s : string).

Definition no_token : Error := mkError "No access token provided".

Definition cacheKey_of (accessToken : string) : string :=
  String.append "stats-" accessToken.

(** Lines 110-284, the body of the [try] block. *)
Definition fetch_stats (fuel : nat) (accessToken : string) : M Report.t :=
  rateLimit;;
  let* who1 := octokit_users_getAuthenticated accessToken in
  let* user := query_contributions accessToken (AuthenticatedUser.login who1) in
  let* who2 := octokit_users_getAuthenticated accessToken in
  let login := AuthenticatedUser.login who2 in
  let* allRepositories := getAllRepositories fuel accessToken login in
  let* who3 := octokit_users_getAuthenticated accessToken in
  let* who4 := octokit_users_getAuthenticated accessToken in
  let result := result_of (toLocaleDateString env) user allRepositories who3 who4 in
  cache_set (cacheKey_of accessToken) result;;
  ret result.

Definition getGitHubStats (fuel : nat) (accessToken : AccessToken) : M Report.t :=
  match accessToken with
  | Undefined | Null => throw no_token
  | Token accessToken =>
      if negb (truthy accessToken) then throw no_token
      else
        let cacheKey := cacheKey_of accessToken in
        let* cachedData := cache_get cacheKey in
        match cachedData with
        | Some report => ret report
        | None =>
            try_catch (fetch_stats fuel accessToken)
              (fun error => console_error error;; throw error)
        end
  end.

End Run.

(** A freshly loaded module: empty cache, [lastCall = 0], no call issued. *)
Definition boot (now : Z) : World :=
  {| clock := now; lastCall := 0; cache := []; calls := 0 |}.

(** The worlds a process can be in: the module is loaded, time passes, and
    [getGitHubStats] is called with any argument against any remote. *)
Inductive reachable : World → Prop :=
| reachable_boot now : reachable (boot now)
| reachable_idle ms w : 0 ≤ ms → reachable w → reachable (advance ms w)
| reachable_call env fuel accessToken w o w' evs :
    reachable w →
    getGitHubStats env fuel accessToken w = (o, w', evs) →
    reachable w'.

(** ** Reading a trace *)

(** The identities delivered by successful [getAuthenticated] calls. *)
Definition identity_of (ev : Z * Event) : option AuthenticatedUser.t :=
  match snd ev with GetAuthenticated _ (inr who) => Some who | _ => None end.

(** Every [getAuthenticated] request, answered or failed. *)
Definition is_identity_call (ev : Z * Event) : bool :=
  match snd ev with GetAuthenticated _ _ => true | _ => false end.

Definition is_remote_call (ev : Z * Event) : bool :=
  match snd ev with
  | GetAuthenticated _ _ | QueryContributions _ _ _ | QueryRepositories _ _ _ _ => true
  | _ => false
  end.

Definition is_cache_access (ev : Z * Event) : bool :=
  match snd ev with CacheGet _ _ | CacheSet _ => true | _ => false end.

Definition is_cache_write (ev : Z * Event) : bool :=
  match snd ev with CacheSet _ => true | _ => false end.

(** The error of a remote call that failed. *)
Definition failure_of (ev : Z * Event) : option Error :=
  match snd ev with
  | GetAuthenticated _ (inl e) | QueryContributions _ _ (inl e)
  | QueryRepositories _ _ _ (inl e) => Some e
  | _ => None
  end.

Definition collection_of (ev : Z * Event) : option ContributionsCollection.t :=
  match snd ev with QueryContributions _ _ (inr c) => Some c | _ => None end.

(** The listing requests with their cursors and delivered pages. *)
Definition page_of (ev : Z * Event)
  : option (option string * RepositoryConnection.t) :=
  match snd ev with
  | QueryRepositories _ _ cursor (inr page) => Some (cursor, page)
  | _ => None
  end.

Definition identities (evs : list (Z * Event)) := omap identity_of evs.
Definition identity_calls (evs : list (Z * Event)) := filter is_identity_call evs.
Definition remote_calls (evs : list (Z * Event)) := filter is_remote_call evs.
Definition cache_accesses (evs : list (Z * Event)) := filter is_cache_access evs.
Definition cache_writes (evs : list (Z * Event)) := filter is_cache_write evs.
Definition failures (evs : list (Z * Event)) := omap failure_of evs.
Definition collections (evs : list (Z * Event)) := omap collection_of evs.
Definition pages (evs : list (Z * Event)) := omap page_of evs.

(** All repositories delivered by the listing pages of a trace, in order. *)
Definition listed (evs : list (Z * Event)) : list Repository.t :=
  flat_map (fun p => RepositoryConnection.nodes (snd p)) (pages evs).

(** A complete pagination from [cursor]: every page is requested with the end
    cursor of the page before it, and only the last page reports no next
    page. *)
Inductive complete_pagination
  : option string → list (option string * RepositoryConnection.t) → Prop :=
| pagination_last cursor page :
    PageInfo.hasNextPage (RepositoryConnection.pageInfo page) = false →
    complete_pagination cursor [(cursor, page)]
| pagination_next cursor page rest :
    PageInfo.hasNextPage (RepositoryConnection.pageInfo page) = true →
    complete_pagination (PageInfo.endCursor (RepositoryConnection.pageInfo page)) rest →
    complete_pagination cursor ((cursor, page) :: rest).

(** ** Sums over a report and over the calendar *)

Definition sum_N (l : list N) : N := foldr N.add 0%N l.

Definition sum_percentages (l : list LanguageShare.t) : number :=
  foldr (fun s acc => number_add (LanguageShare.percentage s) acc) (of_N 0) l.

Definition calendar_days (c : ContributionsCollection.t) : list ContributionDay.t :=
  flat_map Week.contributionDays (ContributionsCollection.weeks c).



(** ** Interleaved callers of the rate limiter

    [rateLimit] has one suspension point, the awaited timer. A call of
    [getGitHubStats] that misses the cache runs lines 18-23 when it is made
    and line 25 when its timer has fired (or at once when no timer was
    needed); its remote calls start then. Other callers run in between. *)

Inductive Caller : Type :=
| Idle
| Waiting (entered wake : Z)
| Calling (entered since : Z).

Definition stamp (w : World) : World :=
  {| clock := clock w; lastCall := clock w; cache := cache w; calls := calls w |}.

Inductive throttle_step : World * list Caller → World * list Caller → Prop :=
| step_enter_wait w cs i :
    cs !! i = Some Idle →
    clock w - lastCall w < minInterval →
    throttle_step (w, cs)
      (w, <[i := Waiting (clock w)
                   (clock w + (minInterval - (clock w - lastCall w)))]> cs)
| step_enter_pass w cs i :
    cs !! i = Some Idle →
    minInterval ≤ clock w - lastCall w →
    throttle_step (w, cs) (stamp w, <[i := Calling (clock w) (clock w)]> cs)
| step_resume w cs i entered wake :
    cs !! i = Some (Waiting entered wake) →
    wake ≤ clock w →
    throttle_step (w, cs) (stamp w, <[i := Calling entered (clock w)]> cs)
| step_time w cs ms :
    0 ≤ ms →
    throttle_step (w, cs) (advance ms w, cs).

Inductive throttle_steps : World * list Caller → World * list Caller → Prop :=
| steps_refl c : throttle_steps c c
| steps_step c1 c2 c3 :
    throttle_step c1 c2 → throttle_steps c2 c3 → throttle_steps c1 c3.

(** The errors an outcome carries. *)
Definition errors_of {A} (o : Outcome A) : list Error :=
  match o with Thrown e => [e] | _ => [] end.

(** A computation that leaves the cache alone, whatever its outcome, and
    throws exactly the error of the remote call that failed. *)
Definition quiet {A} (m : M A) : Prop :=
  ∀ w o w' evs, m w = (o, w', evs) →
    cache w' = cache w ∧ cache_accesses evs = [] ∧ failures evs = errors_of o.

(** A computation that may write the cache, but not unless it returns. *)
Definition guarded {A} (m : M A) : Prop :=
  ∀ w o w' evs, m w = (o, w', evs) →
    failures evs = errors_of o ∧
    ((∀ a, o ≠ Returned a) → cache w' = cache w ∧ cache_writes evs = []).

(** An answered listing request. *)
Definition is_listing (ev : Z * Event) : Prop :=
  match snd ev with QueryRepositories _ _ _ (inr _) => True | _ => False end.

(** The three-entry breakdown agrees with the report's own totals. *)
Definition typed_by_totals (r : Report.t) : Prop :=
  Report.contributionsByType r =
    [ TypeCount.mk "Commits" (Report.totalCommits r);
      TypeCount.mk "Comments" (Report.totalComments r);
      TypeCount.mk "Reviews" (Report.totalReviews r) ].


(** The finite value of a percentage ([0] for the special values). *)
Definition finite_part (x : number) : Q :=
  match x with Finite q => q | _ => 0%Q end.

Definition Qsum (l : list Q) : Q := foldr Qplus 0%Q l.

(** A repository record that takes part in the language aggregation. *)
Definition has_language (repo : RepoStats.t) : bool :=
  match RepoStats.language repo with Some language => truthy language | None => false end.

(** The commits of the repositories with a detected language. *)
Definition language_commits (repoStats : list RepoStats.t) : N :=
  sum_N (map RepoStats.commits (filter (fun repo => has_language repo) repoStats)).

(** A remote that answers every request, and whose listing reports no further
    page from its [bound]-th call on. *)
Definition answers (env : Env) (bound : nat) : Prop :=
  (∀ n auth, ∃ who, users_getAuthenticated env n auth = inr who)
  ∧ (∀ n auth login, ∃ c, graphql_contributions env n auth login = inr c)
  ∧ (∀ n auth login cursor, ∃ page,
       graphql_repositories env n auth login cursor = inr page
       ∧ ((bound ≤ n)%nat →
          PageInfo.hasNextPage (RepositoryConnection.pageInfo page) = false)).

(** A computation that leaves the rate limiter's timestamp alone. *)
Definition keeps_lastCall {A} (m : M A) : Prop :=
  ∀ w o w' evs, m w = (o, w', evs) → lastCall w' = lastCall w.

(** The instant at which the first remote call of a trace was started. *)
Definition first_remote_call (evs : list (Z * Event)) : option Z :=
  fst <$> head (remote_calls evs).

(** ** Further readings of a trace *)

(** An answered listing request made with the given token for the given
    login. *)
Definition is_listing_for (auth login : string) (ev : Z * Event) : Prop :=
  match snd ev with
  | QueryRepositories auth' login' _ (inr _) => auth' = auth ∧ login' = login
  | _ => False
  end.

(** The delay a timer was set to. *)
Definition timer_of (ev : Z * Event) : option Z :=
  match snd ev with Timer ms => Some ms | _ => None end.

Definition timers (evs : list (Z * Event)) : list Z := omap timer_of evs.

(** A computation all of whose events satisfy [P]. *)
Definition emits_only {A} (P : Z * Event → Prop) (m : M A) : Prop :=
  ∀ w o w' evs, m w = (o, w', evs) → Forall P evs.

(** ** Further sums *)

(** A repository record whose detected language is [language]. *)
Definition speaks (language : string) (repo : RepoStats.t) : bool :=
  match RepoStats.language repo with
  | Some l => String.eqb language l && truthy l
  | None => false
  end.

(** The commits of the repositories whose detected language is [language]. *)
Definition commits_in (language : string) (repoStats : list RepoStats.t) : N :=
  sum_N (map RepoStats.commits (filter (fun repo => speaks language repo) repoStats)).

(** ** Keys a plain object inherits

    A plain object ([{}]) answers the read of a key it inherits from
    [Object.prototype] with the inherited value, not with [undefined], and
    ignores the assignment of a number to [__proto__]; [obj_get] and [obj_set]
    describe the table on every other key. Statements about the content of
    the language table therefore ask that no detected language bears one of
    these names. *)
Definition Object_prototype_keys : list string :=
  [ "constructor"; "hasOwnProperty"; "isPrototypeOf"; "propertyIsEnumerable";
    "toLocaleString"; "toString"; "valueOf"; "__proto__";
    "__defineGetter__"; "__defineSetter__"; "__lookupGetter__"; "__lookupSetter__" ].

Definition own_key (k : string) : bool :=
  negb (existsb (String.eqb k) Object_prototype_keys).

(** Repositories none of whose detected languages bears an inherited name. *)
Definition plain_languages (repos : list Repository.t) : bool :=
  forallb
    (fun repo => match language_of repo with Some l => own_key l | None => true end)
    repos.

(** The contributions of the calendar days that the host names [name]. *)
Definition bucket_total (tz : string → string) (name : string)
    (days : list ContributionDay.t) : N :=
  sum_N (map ContributionDay.contributionCount
           (filter (fun day => tz (ContributionDay.date day) = name) days)).

(** The dates of the calendar days with at least one contribution. *)
Definition active_dates (days : list ContributionDay.t) : list string :=
  map ContributionDay.date
    (filter (fun day => (0 <? ContributionDay.contributionCount day)%N) days).

(** ** Shape of the cache *)

(** At most [max] entries, at most one per key. *)
Definition cache_shape (c : list CacheEntry.t) : Prop :=
  (length c ≤ max)%nat ∧ NoDup (map CacheEntry.key c).

(** ** Shape of a report *)

Definition well_formed (r : Report.t) : Prop :=
  map DayCount.day (Report.contributionsByDay r) = daysOrder
  ∧ Report.totalRepos r = N.of_nat (length (Report.repos r))
  ∧ StronglySorted (fun x y => (RepoStats.commits y ≤ RepoStats.commits x)%N)
      (Report.repos r)
  ∧ Forall (fun s => RepoStats.commits s = RepoStats.contributions s) (Report.repos r)
  ∧ NoDup (map LanguageShare.name (Report.languages r)).

(** ** Callers that enter the rate limiter after another has left it

    What holds of caller [j] once some caller has started its remote calls at
    [since]: it has not entered yet, or it is set to wake, or has started, at
    least [minInterval] later. *)
Definition spaced_after (since : Z) (j : nat) (c : World * list Caller) : Prop :=
  since ≤ lastCall c.1 ∧ lastCall c.1 ≤ clock c.1
  ∧ match c.2 !! j with
    | Some (Waiting _ wake) => since + minInterval ≤ wake
    | Some (Calling _ start) => since + minInterval ≤ start
    | _ => True
    end.

(** The rate limiter's timestamp is not ahead of the clock and not behind the
    start of any caller that has passed. *)
Definition stamped (c : World * list Caller) : Prop :=
  lastCall c.1 ≤ clock c.1
  ∧ ∀ k entered since, c.2 !! k = Some (Calling entered since) → since ≤ lastCall c.1.

(** ** Sample data *)

Module Sample.

Definition octocat : AuthenticatedUser.t :=
  {| AuthenticatedUser.login := "octocat";
     AuthenticatedUser.avatar_url := "https://avatars.example/octocat" |}.

Definition repo (name : string) (private : bool) (language : option string)
    (branch : option Ref.t) : Repository.t :=
  {| Repository.nameWithOwner := name;
     Repository.isPrivate := private;
     Repository.url := String.append "https://github.example/" name;
     Repository.description := None;
     Repository.primaryLanguage := option_map Language.mk language;
     Repository.stargazerCount := 0%N;
     Repository.defaultBranchRef := branch |}.

Definition branch (n : N) : option Ref.t :=
  Some (Ref.mk (Some (GitObject.mk (Some (History.mk n))))).

Definition day (n : N) (date : string) (weekday : N) : ContributionDay.t :=
  {| ContributionDay.contributionCount := n;
     ContributionDay.date := date;
     ContributionDay.weekday := weekday |}.

Definition collection : ContributionsCollection.t :=
  {| ContributionsCollection.totalCommitContributions := 40%N;
     ContributionsCollection.totalIssueContributions := 3%N;
     ContributionsCollection.totalPullRequestContributions := 2%N;
     ContributionsCollection.totalPullRequestReviewContributions := 5%N;
     ContributionsCollection.weeks :=
       [ Week.mk [ day 0 "2024-01-07" 0; day 4 "2024-01-08" 1; day 1 "2024-01-09" 2 ];
         Week.mk [ day 2 "2024-01-15" 1; day 0 "2024-01-16" 2 ] ] |}.

(** Weekday names of the sample dates, as a host in the UTC zone reports them. *)
Definition weekday_name (date : string) : string :=
  if String.eqb date "2024-01-07" then "Sunday"
  else if String.eqb date "2024-01-08" then "Monday"
  else if String.eqb date "2024-01-09" then "Tuesday"
  else if String.eqb date "2024-01-15" then "Monday"
  else if String.eqb date "2024-01-16" then "Tuesday"
  else "Invalid Date".

(** Two pages: three repositories, one of them private, one of them empty. *)
Definition page1 : RepositoryConnection.t :=
  {| RepositoryConnection.nodes :=
       [ repo "octocat/site" false (Some "TypeScript") (branch 5);
         repo "acme/secret" true (Some "Go") (branch 15) ];
     RepositoryConnection.pageInfo := PageInfo.mk true (Some "c1") |}.

Definition page2 : RepositoryConnection.t :=
  {| RepositoryConnection.nodes := [ repo "octocat/empty" false None None ];
     RepositoryConnection.pageInfo := PageInfo.mk false None |}.

Definition listing (cursor : option string) : Error + RepositoryConnection.t :=
  match cursor with
  | None => inr page1
  | Some c => if String.eqb c "c1" then inr page2 else inl (mkError "Bad cursor")
  end.

Definition env : Env :=
  {| users_getAuthenticated := fun _ _ => inr octocat;
     graphql_contributions := fun _ _ _ => inr collection;
     graphql_repositories := fun _ _ _ cursor => listing cursor;
     latency := fun _ => 120;
     timerLag := fun _ => 0;
     toLocaleDateString := weekday_name |}.

(** The same remote, except that the second listing page is refused. *)
Definition bad_gateway : Error := mkError "Bad Gateway".

Definition flaky : Env :=
  {| users_getAuthenticated := fun _ _ => inr octocat;
     graphql_contributions := fun _ _ _ => inr collection;
     graphql_repositories := fun _ _ _ cursor =>
       match cursor with None => inr page1 | Some _ => inl bad_gateway end;
     latency := fun _ => 60;
     timerLag := fun _ => 0;
     toLocaleDateString := weekday_name |}.

(** A remote whose listing holds one repository with a detected language and
    no commit on its default branch, and one without a language. *)
Definition dormant_page : RepositoryConnection.t :=
  {| RepositoryConnection.nodes :=
       [ repo "octocat/notes" false (Some "Go") (branch 0);
         repo "octocat/scratch" false None (branch 5) ];
     RepositoryConnection.pageInfo := PageInfo.mk false None |}.

Definition dormant : Env :=
  {| users_getAuthenticated := fun _ _ => inr octocat;
     graphql_contributions := fun _ _ _ => inr collection;
     graphql_repositories := fun _ _ _ _ => inr dormant_page;
     latency := fun _ => 120;
     timerLag := fun _ => 0;
     toLocaleDateString := weekday_name |}.

(** The two-repository scenario: ten commits in Go, five commits without a
    detected language, and a calendar without activity. *)
Definition quiet_collection : ContributionsCollection.t :=
  {| ContributionsCollection.totalCommitContributions := 0%N;
     ContributionsCollection.totalIssueContributions := 0%N;
     ContributionsCollection.totalPullRequestContributions := 0%N;
     ContributionsCollection.totalPullRequestReviewContributions := 0%N;
     ContributionsCollection.weeks :=
       [ Week.mk [ day 0 "2024-01-07" 0; day 0 "2024-01-08" 1 ] ] |}.

Definition two_page : RepositoryConnection.t :=
  {| RepositoryConnection.nodes :=
       [ repo "octocat/plain" false None (branch 5);
         repo "octocat/gopher" false (Some "Go") (branch 10) ];
     RepositoryConnection.pageInfo := PageInfo.mk false None |}.

Definition two : Env :=
  {| users_getAuthenticated := fun _ _ => inr octocat;
     graphql_contributions := fun _ _ _ => inr quiet_collection;
     graphql_repositories := fun _ _ _ _ => inr two_page;
     latency := fun _ => 120;
     timerLag := fun _ => 0;
     toLocaleDateString := weekday_name |}.



End Sample.

(** * Properties *)

(** ** The monad *)

Lemma bind_inv {A B} (m : M A) (k : A → M B) w o w' evs :
  bind m k w = (o, w', evs) →
  (∃ a w1 evs1 evs2,
      m w = (Returned a, w1, evs1) ∧ k a w1 = (o, w', evs2) ∧ evs = evs1 ++ evs2)
  ∨ (∃ e, m w = (Thrown e, w', evs) ∧ o = Thrown e)
  ∨ (m w = (Diverged, w', evs) ∧ o = Diverged).
Proof.
  unfold bind. destruct (m w) as [[[a | e |] w1] evs1].
  - destruct (k a w1) as [[o2 w2] evs2] eqn:Hk. intros [= <- <- <-].
    left. by exists a, w1, evs1, evs2.
  - intros [= <- <- <-]. right; left. by exists e.
  - intros [= <- <- <-]. by right; right.
Qed.

Lemma bind_Returned {A B} (m : M A) (k : A → M B) w b w' evs :
  bind m k w = (Returned b, w', evs) →
  ∃ a w1 evs1 evs2,
    m w = (Returned a, w1, evs1) ∧ k a w1 = (Returned b, w', evs2)
    ∧ evs = evs1 ++ evs2.
Proof.
  intros H. apply bind_inv in H as [H | [(e & _ & [=]) | (_ & [=])]]. exact H.
Qed.

(** ** Traces *)

Lemma identities_app l1 l2 : identities (l1 ++ l2) = identities l1 ++ identities l2.
Proof. apply omap_app. Qed.

Lemma identity_calls_app l1 l2 :
  identity_calls (l1 ++ l2) = identity_calls l1 ++ identity_calls l2.
Proof. apply filter_app. Qed.

Lemma remote_calls_app l1 l2 : remote_calls (l1 ++ l2) = remote_calls l1 ++ remote_calls l2.
Proof. apply filter_app. Qed.

Lemma cache_accesses_app l1 l2 :
  cache_accesses (l1 ++ l2) = cache_accesses l1 ++ cache_accesses l2.
Proof. apply filter_app. Qed.

Lemma cache_writes_app l1 l2 : cache_writes (l1 ++ l2) = cache_writes l1 ++ cache_writes l2.
Proof. apply filter_app. Qed.

Lemma failures_app l1 l2 : failures (l1 ++ l2) = failures l1 ++ failures l2.
Proof. apply omap_app. Qed.

Lemma collections_app l1 l2 : collections (l1 ++ l2) = collections l1 ++ collections l2.
Proof. apply omap_app. Qed.

Lemma pages_app l1 l2 : pages (l1 ++ l2) = pages l1 ++ pages l2.
Proof. apply omap_app. Qed.

Lemma listed_app l1 l2 : listed (l1 ++ l2) = listed l1 ++ listed l2.
Proof. unfold listed. by rewrite pages_app, flat_map_app. Qed.

Create Rewrite HintDb trace.

#[local] Hint Rewrite identities_app identity_calls_app remote_calls_app
  cache_accesses_app cache_writes_app failures_app collections_app pages_app
  listed_app : trace.

Lemma failures_cons ev evs :
  failures (ev :: evs) =
    match failure_of ev with Some e => e :: failures evs | None => failures evs end.
Proof. reflexivity. Qed.

Lemma cache_writes_cons ev evs :
  cache_writes (ev :: evs) =
    if is_cache_write ev then ev :: cache_writes evs else cache_writes evs.
Proof. unfold cache_writes. rewrite filter_cons. by destruct (is_cache_write ev). Qed.

Lemma cache_writes_accesses evs : cache_accesses evs = [] → cache_writes evs = [].
Proof.
  unfold cache_accesses, cache_writes. induction evs as [| [t ev] evs IH]; [done |].
  rewrite !filter_cons. destruct ev; simpl; try done; auto.
Qed.

(** ** Quiet and guarded computations *)

Lemma quiet_ret {A} (a : A) : quiet (ret a).
Proof. intros w o w' evs [= <- <- <-]. done. Qed.

Lemma quiet_diverge {A} : quiet (@diverge A).
Proof. intros w o w' evs [= <- <- <-]. done. Qed.

Lemma quiet_bind {A B} (m : M A) (k : A → M B) :
  quiet m → (∀ a, quiet (k a)) → quiet (bind m k).
Proof.
  intros Hm Hk w o w' evs H.
  apply bind_inv in H as [(a & w1 & e1 & e2 & H1 & H2 & ->) | [(e & H1 & ->) | (H1 & ->)]].
  - apply Hm in H1 as (Hc1 & Ha1 & Hf1). apply Hk in H2 as (Hc2 & Ha2 & Hf2).
    autorewrite with trace. rewrite Ha1, Ha2, Hf1, Hf2, Hc2, Hc1. done.
  - by apply Hm in H1.
  - by apply Hm in H1.
Qed.

Lemma guarded_bind {A B} (m : M A) (k : A → M B) :
  quiet m → (∀ a, guarded (k a)) → guarded (bind m k).
Proof.
  intros Hm Hk w o w' evs H.
  apply bind_inv in H as [(a & w1 & e1 & e2 & H1 & H2 & ->) | [(e & H1 & ->) | (H1 & ->)]].
  - apply Hm in H1 as (Hc1 & Ha1 & Hf1). apply Hk in H2 as (Hf2 & H2).
    autorewrite with trace. rewrite Hf1, Hf2. split; [done |].
    intros Ho. destruct (H2 Ho) as [-> ->].
    by rewrite (cache_writes_accesses _ Ha1).
  - apply Hm in H1 as (Hc1 & Ha1 & Hf1). split; [done |].
    intros _. by rewrite (cache_writes_accesses _ Ha1).
  - apply Hm in H1 as (Hc1 & Ha1 & Hf1). split; [done |].
    intros _. by rewrite (cache_writes_accesses _ Ha1).
Qed.

Section RunFacts.
Variable env : Env.

Lemma quiet_await_timeout ms : quiet (await_timeout env ms).
Proof. intros w o w' evs [= <- <- <-]. done. Qed.

Lemma quiet_getAuthenticated auth : quiet (octokit_users_getAuthenticated env auth).
Proof.
  intros w o w' evs. unfold octokit_users_getAuthenticated, await_remote.
  destruct (users_getAuthenticated env (calls w) auth); intros [= <- <- <-]; done.
Qed.

Lemma quiet_query_contributions auth login : quiet (query_contributions env auth login).
Proof.
  intros w o w' evs. unfold query_contributions, await_remote.
  destruct (graphql_contributions env (calls w) auth login); intros [= <- <- <-]; done.
Qed.

Lemma quiet_query_repositories auth login cursor :
  quiet (query_repositories env auth login cursor).
Proof.
  intros w o w' evs. unfold query_repositories, await_remote.
  destruct (graphql_repositories env (calls w) auth login cursor);
    intros [= <- <- <-]; done.
Qed.

Lemma quiet_rateLimit : quiet (rateLimit env).
Proof.
  unfold rateLimit. apply quiet_bind; [by intros w o w' evs [= <- <- <-] |].
  intros now. apply quiet_bind; [by intros w o w' evs [= <- <- <-] |].
  intros since. apply quiet_bind.
  { destruct (since <? minInterval); [apply quiet_await_timeout | apply quiet_ret]. }
  intros _. apply quiet_bind; [by intros w o w' evs [= <- <- <-] |].
  intros now'. by intros w o w' evs [= <- <- <-].
Qed.

Lemma quiet_getAllRepositories_loop fuel auth login :
  ∀ repositories cursor,
    quiet (getAllRepositories_loop env fuel auth login repositories cursor).
Proof.
  induction fuel as [| fuel IH]; intros repositories cursor; simpl.
  - apply quiet_diverge.
  - apply quiet_bind; [apply quiet_query_repositories |].
    intros user. destruct (PageInfo.hasNextPage _); [apply IH | apply quiet_ret].
Qed.

Lemma guarded_fetch_stats fuel accessToken : guarded (fetch_stats env fuel accessToken).
Proof.
  unfold fetch_stats.
  apply guarded_bind; [apply quiet_rateLimit | intros _].
  apply guarded_bind; [apply quiet_getAuthenticated | intros who1].
  apply guarded_bind; [apply quiet_query_contributions | intros user].
  apply guarded_bind; [apply quiet_getAuthenticated | intros who2].
  apply guarded_bind; [apply quiet_getAllRepositories_loop | intros allRepositories].
  apply guarded_bind; [apply quiet_getAuthenticated | intros who3].
  apply guarded_bind; [apply quiet_getAuthenticated | intros who4].
  intros w o w' evs [= <- <- <-]. split; [done |].
  intros Ho. by destruct (Ho (result_of (toLocaleDateString env) user allRepositories who3 who4)).
Qed.

End RunFacts.

(** ** Runs that return *)

Lemma listing_only evs :
  Forall is_listing evs →
  identities evs = [] ∧ identity_calls evs = [] ∧ collections evs = [].
Proof.
  induction 1 as [| [t ev] evs Hev _ (IH1 & IH2 & IH3)]; [done |].
  unfold identities, identity_calls, collections in *.
  rewrite filter_cons. simpl. unfold is_listing in Hev. simpl in Hev.
  destruct ev as [| | | | | ? ? ? [] |]; try done.
Qed.

Section Returns.
Variable env : Env.

Lemma rateLimit_eq w :
  rateLimit env w =
    if clock w - lastCall w <? minInterval then
      (Returned tt,
       stamp (advance (minInterval - (clock w - lastCall w) + timerLag env (clock w)) w),
       [(clock w, Timer (minInterval - (clock w - lastCall w)))])
    else (Returned tt, stamp w, []).
Proof.
  unfold rateLimit, bind, Date_now, ret. simpl.
  destruct (clock w - lastCall w <? minInterval); reflexivity.
Qed.

Lemma rateLimit_Returned w a w' evs :
  rateLimit env w = (Returned a, w', evs) →
  cache w' = cache w ∧ identities evs = [] ∧ identity_calls evs = []
  ∧ collections evs = [] ∧ pages evs = [] ∧ cache_writes evs = [].
Proof.
  rewrite rateLimit_eq.
  destruct (clock w - lastCall w <? minInterval); intros [= <- <- <-]; done.
Qed.

Lemma getAuthenticated_Returned auth w who w' evs :
  octokit_users_getAuthenticated env auth w = (Returned who, w', evs) →
  evs = [(clock w, GetAuthenticated auth (inr who))] ∧ cache w' = cache w.
Proof.
  unfold octokit_users_getAuthenticated, await_remote.
  destruct (users_getAuthenticated env (calls w) auth); intros [= <- <- <-]; done.
Qed.

Lemma query_contributions_Returned auth login w user w' evs :
  query_contributions env auth login w = (Returned user, w', evs) →
  evs = [(clock w, QueryContributions auth login (inr user))] ∧ cache w' = cache w.
Proof.
  unfold query_contributions, await_remote.
  destruct (graphql_contributions env (calls w) auth login); intros [= <- <- <-]; done.
Qed.

Lemma query_repositories_Returned auth login cursor w page w' evs :
  query_repositories env auth login cursor w = (Returned page, w', evs) →
  evs = [(clock w, QueryRepositories auth login cursor (inr page))] ∧ cache w' = cache w.
Proof.
  unfold query_repositories, await_remote.
  destruct (graphql_repositories env (calls w) auth login cursor);
    intros [= <- <- <-]; done.
Qed.

(** The loop returns what it was given followed by every node of every page
    it fetched, and the pages it fetched are a complete pagination. *)
Lemma getAllRepositories_loop_Returned fuel auth login :
  ∀ repositories cursor w result w' evs,
    getAllRepositories_loop env fuel auth login repositories cursor w
      = (Returned result, w', evs) →
    result = repositories ++ listed evs
    ∧ complete_pagination cursor (pages evs)
    ∧ Forall is_listing evs.
Proof.
  induction fuel as [| fuel IH]; intros repositories cursor w result w' evs; simpl.
  - intros [=].
  - intros H. apply bind_Returned in H as (page & w1 & e1 & e2 & H1 & H2 & ->).
    apply query_repositories_Returned in H1 as [-> _].
    destruct (PageInfo.hasNextPage (RepositoryConnection.pageInfo page)) eqn:Hnext.
    + apply IH in H2 as (-> & Hp & Hl). split; [| split].
      * rewrite listed_app. unfold listed at 2. simpl. by rewrite app_nil_r, app_assoc.
      * rewrite pages_app. by apply pagination_next.
      * by constructor.
    + injection H2 as <- <- <-. split; [| split].
      * unfold listed. simpl. by rewrite app_nil_r.
      * by apply pagination_last.
      * by repeat constructor.
Qed.

Lemma cache_set_eq key value w :
  cache_set key value w =
    (Returned tt,
     set_cache (take max (CacheEntry.mk key value (clock w) :: without key (cache w))) w,
     [(clock w, CacheSet key)]).
Proof. reflexivity. Qed.

(** What a returning run of the [try] block did. *)
Lemma fetch_stats_Returned fuel accessToken w r w' evs :
  fetch_stats env fuel accessToken w = (Returned r, w', evs) →
  ∃ user who1 who2 who3 who4 t,
    identities evs = [who1; who2; who3; who4]
    ∧ length (identity_calls evs) = 4%nat
    ∧ collections evs = [user]
    ∧ complete_pagination None (pages evs)
    ∧ r = result_of (toLocaleDateString env) user (listed evs) who3 who4
    ∧ cache_writes evs = [(t, CacheSet (cacheKey_of accessToken))]
    ∧ cache w' =
        take max (CacheEntry.mk (cacheKey_of accessToken) r t
                    :: without (cacheKey_of accessToken) (cache w)).
Proof.
  unfold fetch_stats, getAllRepositories. intros H.
  apply bind_Returned in H as (? & w1 & e1 & ? & H1 & H & ->).
  apply rateLimit_Returned in H1 as (Hc1 & Hi1 & Hn1 & Hk1 & Hp1 & Hw1).
  apply bind_Returned in H as (who1 & w2 & e2 & ? & H2 & H & ->).
  apply getAuthenticated_Returned in H2 as [-> Hc2].
  apply bind_Returned in H as (user & w3 & e3 & ? & H3 & H & ->).
  apply query_contributions_Returned in H3 as [-> Hc3].
  apply bind_Returned in H as (who2 & w4 & e4 & ? & H4 & H & ->).
  apply getAuthenticated_Returned in H4 as [-> Hc4].
  apply bind_Returned in H as (repos & w5 & e5 & ? & H5 & H & ->).
  pose proof (quiet_getAllRepositories_loop env _ _ _ _ _ _ _ _ _ H5) as (Hc5 & Ha5 & _).
  apply getAllRepositories_loop_Returned in H5 as (Hr5 & Hp5 & Hl5).
  apply listing_only in Hl5 as (Hi5 & Hn5 & Hk5).
  apply bind_Returned in H as (who3 & w6 & e6 & ? & H6 & H & ->).
  apply getAuthenticated_Returned in H6 as [-> Hc6].
  apply bind_Returned in H as (who4 & w7 & e7 & ? & H7 & H & ->).
  apply getAuthenticated_Returned in H7 as [-> Hc7].
  apply bind_Returned in H as ([] & w8 & e8 & ? & H8 & H & ->).
  rewrite cache_set_eq in H8. injection H8 as <- <-. injection H as <- <- <-.
  exists user, who1, who2, who3, who4, (clock w7).
  simpl in Hr5. subst repos. unfold listed. autorewrite with trace.
  rewrite Hi1, Hn1, Hk1, Hp1, Hw1, Hi5, Hn5, Hk5, (cache_writes_accesses _ Ha5).
  simpl. rewrite !app_nil_r. rewrite Hc7, Hc6, Hc5, Hc4, Hc3, Hc2, Hc1.
  repeat split; try done.
Qed.

End Returns.

(** ** [getGitHubStats]: the two paths past the token check *)

Section Paths.
Variable env : Env.

Lemma getGitHubStats_hit fuel accessToken w entry :
  truthy accessToken = true →
  cache_lookup (clock w) (cacheKey_of accessToken) (cache w) = Some entry →
  getGitHubStats env fuel (Token accessToken) w =
    (Returned (CacheEntry.value entry),
     set_cache (entry :: without (cacheKey_of accessToken) (cache w)) w,
     [(clock w, CacheGet (cacheKey_of accessToken) true)]).
Proof.
  intros Ht Hl. unfold getGitHubStats. rewrite Ht.
  change (negb true) with false. cbv beta iota zeta.
  unfold bind at 1. unfold cache_get. rewrite Hl. reflexivity.
Qed.

Lemma getGitHubStats_miss fuel accessToken w :
  truthy accessToken = true →
  cache_lookup (clock w) (cacheKey_of accessToken) (cache w) = None →
  getGitHubStats env fuel (Token accessToken) w =
    let '(o, w', evs) :=
      try_catch (fetch_stats env fuel accessToken)
        (fun error => console_error error;; throw error) w in
    (o, w', (clock w, CacheGet (cacheKey_of accessToken) false) :: evs).
Proof.
  intros Ht Hl. unfold getGitHubStats. rewrite Ht.
  change (negb true) with false. cbv beta iota zeta.
  unfold bind at 1. unfold cache_get. rewrite Hl. simpl.
  by destruct (try_catch _ _ w) as [[[] ?] ?].
Qed.

(** The handler logs and rethrows: the [try] statement changes the trace by
    one console line and nothing else. *)
Lemma try_catch_rethrow (m : M Report.t) w :
  try_catch m (fun error => console_error error;; throw error) w =
    match m w with
    | (Thrown e, w1, evs1) => (Thrown e, w1, evs1 ++ [(clock w1, ConsoleError e)])
    | r => r
    end.
Proof. unfold try_catch. by destruct (m w) as [[[] ?] ?]. Qed.

(** A returning call that missed the cache ran the [try] block to its end. *)
Lemma getGitHubStats_miss_Returned fuel accessToken w r w' evs :
  cache_lookup (clock w) (cacheKey_of accessToken) (cache w) = None →
  getGitHubStats env fuel (Token accessToken) w = (Returned r, w', evs) →
  ∃ evs',
    evs = (clock w, CacheGet (cacheKey_of accessToken) false) :: evs'
    ∧ fetch_stats env fuel accessToken w = (Returned r, w', evs').
Proof.
  intros Hl H. destruct (truthy accessToken) eqn:Ht.
  - rewrite getGitHubStats_miss, try_catch_rethrow in H by done.
    destruct (fetch_stats env fuel accessToken w) as [[[a | e |] w1] evs1];
      try discriminate.
    injection H as <- <- <-. by exists evs1.
  - unfold getGitHubStats in H. rewrite Ht in H. discriminate.
Qed.

End Paths.

(** ** The cache *)

Lemma find_without_head key entry c :
  has_key key entry = true → find (has_key key) (entry :: c) = Some entry.
Proof. intros H. simpl. by rewrite H. Qed.

Lemma find_take_max key entry c :
  has_key key entry = true → find (has_key key) (take max (entry :: c)) = Some entry.
Proof. intros H. unfold max. simpl. by rewrite H. Qed.

Lemma find_has_key key (c : list CacheEntry.t) entry :
  find (has_key key) c = Some entry → has_key key entry = true ∧ In entry c.
Proof. intros H. apply find_some in H. tauto. Qed.

Lemma cache_lookup_Some now key c entry :
  cache_lookup now key c = Some entry →
  find (has_key key) c = Some entry ∧ now - CacheEntry.start entry ≤ ttl.
Proof.
  unfold cache_lookup, is_stale. destruct (find (has_key key) c) as [e |]; [| done].
  destruct (ttl <? now - CacheEntry.start e) eqn:Hs; [done |].
  intros [= <-]. split; [done |]. lia.
Qed.

Lemma cache_lookup_fresh now key c entry :
  find (has_key key) c = Some entry →
  now - CacheEntry.start entry ≤ ttl →
  cache_lookup now key c = Some entry.
Proof.
  intros Hf Hs. unfold cache_lookup, is_stale. rewrite Hf.
  destruct (ttl <? now - CacheEntry.start entry) eqn:E; [lia | done].
Qed.

(** ** Sorting *)

Lemma sort_insert_perm {A} (compare : A → A → number) a l :
  sort_insert compare a l ≡ₚ a :: l.
Proof.
  induction l as [| b l IH]; simpl; [done |].
  destruct (is_positive (compare a b)); [| done].
  rewrite IH. apply perm_swap.
Qed.

Lemma Array_sort_perm {A} (compare : A → A → number) l :
  Array_sort compare l ≡ₚ l.
Proof.
  induction l as [| a l IH]; simpl; [done |].
  by rewrite sort_insert_perm, IH.
Qed.

Lemma Array_sort_length {A} (compare : A → A → number) l :
  length (Array_sort compare l) = length l.
Proof. by rewrite Array_sort_perm. Qed.

Lemma length_filter_split {A} (f : A → bool) l :
  (length (filter (fun x => f x) l) + length (filter (fun x => negb (f x)) l))%nat
  = length l.
Proof.
  induction l as [| a l IH]; [done |].
  rewrite !filter_cons. destruct (f a) eqn:Hf; simpl; lia.
Qed.

(** ** The assembled report *)

Lemma result_of_repos tz user repos who who' :
  Report.repos (result_of tz user repos who who')
  = Array_sort by_commits_desc (map repoStat repos).
Proof. unfold result_of. by destruct (visit_calendar tz _). Qed.

Lemma result_of_totalRepos tz user repos who who' :
  Report.totalRepos (result_of tz user repos who who') = N.of_nat (length repos).
Proof.
  unfold result_of. destruct (visit_calendar tz _). simpl.
  by rewrite Array_sort_length, length_map.
Qed.

Lemma result_of_typed_by_totals tz user repos who who' :
  typed_by_totals (result_of tz user repos who who').
Proof. unfold typed_by_totals, result_of. by destruct (visit_calendar tz _). Qed.

Lemma result_of_contributionsByDay tz user repos who who' :
  Report.contributionsByDay (result_of tz user repos who who')
  = contributionsByDay_of (visit_calendar tz (ContributionsCollection.weeks user)).1.
Proof. unfold result_of. by destruct (visit_calendar tz _). Qed.

Lemma result_of_languages tz user repos who who' :
  Report.languages (result_of tz user repos who who')
  = languages_of (languageStats_of (map repoStat repos)).
Proof. unfold result_of. by destruct (visit_calendar tz _). Qed.

(** ** What the cache holds *)

Section CacheInvariant.
Variable P : Report.t → Prop.
Hypothesis P_result : ∀ tz user repos who who', P (result_of tz user repos who who').

Lemma without_Forall key c :
  Forall (fun e => P (CacheEntry.value e)) c →
  Forall (fun e => P (CacheEntry.value e)) (without key c).
Proof.
  rewrite !Forall_forall. intros H e He. unfold without in He.
  apply list_elem_of_filter in He as [_ He]. by apply H.
Qed.

Lemma getGitHubStats_preserves env fuel accessToken w o w' evs :
  Forall (fun e => P (CacheEntry.value e)) (cache w) →
  getGitHubStats env fuel accessToken w = (o, w', evs) →
  Forall (fun e => P (CacheEntry.value e)) (cache w')
  ∧ ∀ r, o = Returned r → P r.
Proof.
  intros Hc H. destruct accessToken as [| | accessToken];
    try (injection H as <- <- <-; by split).
  destruct (truthy accessToken) eqn:Ht;
    [| unfold getGitHubStats in H; rewrite Ht in H; injection H as <- <- <-; by split].
  destruct (cache_lookup (clock w) (cacheKey_of accessToken) (cache w)) as [entry |] eqn:Hl.
  - rewrite (getGitHubStats_hit _ _ _ _ _ Ht Hl) in H. injection H as <- <- <-.
    apply cache_lookup_Some in Hl as [Hfind _].
    apply find_has_key in Hfind as [_ Hin].
    assert (Hentry : P (CacheEntry.value entry)).
    { rewrite Forall_forall in Hc. apply Hc. by apply list_elem_of_In. }
    split; [| by intros r [= <-]].
    simpl. constructor; [done | by apply without_Forall].
  - rewrite getGitHubStats_miss, try_catch_rethrow in H by done.
    destruct (fetch_stats env fuel accessToken w) as [[o1 w1] evs1] eqn:Hf.
    destruct o1 as [r | e1 |]; injection H as <- <- <-.
    + apply fetch_stats_Returned in Hf as (user & who1 & who2 & who3 & who4 & t & Hf).
      destruct Hf as (_ & _ & _ & _ & -> & _ & ->).
      split; [| intros r [= <-]; apply P_result].
      apply Forall_take. constructor; [apply P_result | by apply without_Forall].
    + apply guarded_fetch_stats in Hf as [_ Hcache].
      destruct Hcache as [-> _]; [done |]. by split.
    + apply guarded_fetch_stats in Hf as [_ Hcache].
      destruct Hcache as [-> _]; [done |]. by split.
Qed.

Lemma reachable_cache w :
  reachable w → Forall (fun e => P (CacheEntry.value e)) (cache w).
Proof.
  induction 1 as [now | ms w Hms Hw IH | env fuel accessToken w o w' evs Hw IH Hrun].
  - constructor.
  - exact IH.
  - by destruct (getGitHubStats_preserves _ _ _ _ _ _ _ IH Hrun).
Qed.

End CacheInvariant.

(** * The claims *)

(** C5. For an absent ([undefined]), [null] or empty-string credential,
    [getGitHubStats] throws the missing-credential error at once: the world is
    left exactly as it was and the trace is empty, so the cache is neither read
    nor written and no remote call is made. *)
Theorem getGitHubStats_no_token env fuel w :
  getGitHubStats env fuel Undefined w = (Thrown no_token, w, [])
  ∧ getGitHubStats env fuel Null w = (Thrown no_token, w, [])
  ∧ getGitHubStats env fuel (Token "") w = (Thrown no_token, w, [])
  ∧ message no_token = "No access token provided".
Proof. done. Qed.

(** C6. If any remote call of a run fails with error [e] (identity resolution,
    contributions query or any listing page), [getGitHubStats] throws that same
    [e]; the cache is what it was before the call and the run contains no
    cache write, so nothing is stored under the credential's key and no report
    is returned. *)
Theorem getGitHubStats_remote_failure env fuel accessToken w o w' evs e :
  getGitHubStats env fuel accessToken w = (o, w', evs) →
  In e (failures evs) →
  o = Thrown e ∧ cache w' = cache w ∧ cache_writes evs = [].
Proof.
  intros H He. destruct accessToken as [| | accessToken];
    try (injection H as <- <- <-; destruct He).
  destruct (truthy accessToken) eqn:Ht;
    [| unfold getGitHubStats in H; rewrite Ht in H; injection H as <- <- <-; destruct He].
  destruct (cache_lookup (clock w) (cacheKey_of accessToken) (cache w)) as [entry |] eqn:Hl.
  - rewrite (getGitHubStats_hit _ _ _ _ _ Ht Hl) in H. injection H as <- <- <-. destruct He.
  - rewrite getGitHubStats_miss, try_catch_rethrow in H by done.
    destruct (fetch_stats env fuel accessToken w) as [[o1 w1] evs1] eqn:Hf.
    apply guarded_fetch_stats in Hf as [Hfail Hcache].
    destruct o1 as [r | e1 |]; injection H as <- <- <-;
      rewrite failures_cons in He; simpl in He.
    + rewrite Hfail in He. destruct He.
    + rewrite failures_app, Hfail in He. destruct He as [<- | []].
      destruct Hcache as [-> Hw]; [done |].
      rewrite cache_writes_cons. simpl. by rewrite cache_writes_app, Hw.
    + rewrite Hfail in He. destruct He.
Qed.

Lemma getGitHubStats_remote_failure_witness :
  ∃ o w' evs,
    getGitHubStats Sample.flaky 5 (Token "ghp_example") (boot 1700000000000)
      = (o, w', evs)
    ∧ In Sample.bad_gateway (failures evs)
    ∧ o = Thrown Sample.bad_gateway ∧ cache w' = [] ∧ cache_writes evs = [].
Proof.
  destruct (getGitHubStats Sample.flaky 5 (Token "ghp_example") (boot 1700000000000))
    as [[o w'] evs] eqn:H.
  exists o, w', evs. split; [reflexivity |].
  assert (He : In Sample.bad_gateway (failures evs)).
  { vm_compute in H. injection H as <- <- <-. vm_compute. tauto. }
  split; [exact He |].
  exact (getGitHubStats_remote_failure Sample.flaky 5 (Token "ghp_example")
           (boot 1700000000000) o w' evs Sample.bad_gateway H He).
Defined.

(** C1. Once [getGitHubStats] has returned a report for a credential, the
    cache holds an entry with that report under the credential's key, stored
    by this very call or found there by it. Any later call for the credential
    made while that entry is still in the cache (no eviction) and at most
    five minutes after it was stored returns the same report; its whole trace
    is one cache hit, so it issues no remote call, and it neither waits nor
    touches the rate limiter. *)
Theorem getGitHubStats_cached env fuel accessToken w r w1 evs1 :
  getGitHubStats env fuel (Token accessToken) w = (Returned r, w1, evs1) →
  ∃ entry,
    find (has_key (cacheKey_of accessToken)) (cache w1) = Some entry
    ∧ CacheEntry.value entry = r
    ∧ (In (CacheEntry.start entry, CacheSet (cacheKey_of accessToken)) evs1
       ∨ find (has_key (cacheKey_of accessToken)) (cache w) = Some entry)
    ∧ ∀ env2 fuel2 w2,
        find (has_key (cacheKey_of accessToken)) (cache w2) = Some entry →
        clock w2 - CacheEntry.start entry ≤ ttl →
        ∃ w2',
          getGitHubStats env2 fuel2 (Token accessToken) w2
            = (Returned r, w2', [(clock w2, CacheGet (cacheKey_of accessToken) true)])
          ∧ remote_calls [(clock w2, CacheGet (cacheKey_of accessToken) true)] = []
          ∧ calls w2' = calls w2 ∧ clock w2' = clock w2 ∧ lastCall w2' = lastCall w2.
Proof.
  intros H.
  assert (Ht : truthy accessToken = true).
  { destruct (truthy accessToken) eqn:Ht; [done |].
    unfold getGitHubStats in H. rewrite Ht in H. discriminate. }
  assert (Hreuse : ∀ entry, has_key (cacheKey_of accessToken) entry = true →
    CacheEntry.value entry = r →
    ∀ env2 fuel2 w2,
      find (has_key (cacheKey_of accessToken)) (cache w2) = Some entry →
      clock w2 - CacheEntry.start entry ≤ ttl →
      ∃ w2',
        getGitHubStats env2 fuel2 (Token accessToken) w2
          = (Returned r, w2', [(clock w2, CacheGet (cacheKey_of accessToken) true)])
        ∧ remote_calls [(clock w2, CacheGet (cacheKey_of accessToken) true)] = []
        ∧ calls w2' = calls w2 ∧ clock w2' = clock w2 ∧ lastCall w2' = lastCall w2).
  { intros entry Hk Hv env2 fuel2 w2 Hfind Hfresh.
    pose proof (cache_lookup_fresh _ _ _ _ Hfind Hfresh) as Hl.
    eexists. rewrite (getGitHubStats_hit env2 fuel2 _ _ _ Ht Hl), Hv. done. }
  destruct (cache_lookup (clock w) (cacheKey_of accessToken) (cache w)) as [entry |] eqn:Hl.
  - rewrite (getGitHubStats_hit _ _ _ _ _ Ht Hl) in H. injection H as <- <- <-.
    apply cache_lookup_Some in Hl as [Hfind _].
    pose proof (find_has_key _ _ _ Hfind) as [Hk _].
    exists entry. split; [by apply find_without_head |].
    split; [done |]. split; [by right |]. by apply Hreuse.
  - apply getGitHubStats_miss_Returned in H as (evs' & -> & H); [| done].
    apply fetch_stats_Returned in H as (user & who1 & who2 & who3 & who4 & t & H).
    destruct H as (_ & _ & _ & _ & _ & Hw & ->).
    set (entry := CacheEntry.mk (cacheKey_of accessToken) r t).
    assert (Hk : has_key (cacheKey_of accessToken) entry = true)
      by apply String.eqb_refl.
    exists entry. split; [by apply find_take_max |].
    split; [done |]. split; [| by apply Hreuse].
    left. right. apply list_elem_of_In.
    assert (Hin : (t, CacheSet (cacheKey_of accessToken)) ∈ cache_writes evs')
      by (rewrite Hw; apply list_elem_of_here).
    unfold cache_writes in Hin. by apply list_elem_of_filter in Hin as [_ Hin].
Qed.

Lemma getGitHubStats_cached_witness :
  ∃ r w1 evs1 w2',
    getGitHubStats Sample.env 5 (Token "ghp_example") (boot 1700000000000)
      = (Returned r, w1, evs1)
    ∧ getGitHubStats Sample.flaky 0 (Token "ghp_example") (advance 240000 w1)
      = (Returned r, w2',
         [(clock (advance 240000 w1), CacheGet (cacheKey_of "ghp_example") true)])
    ∧ calls w2' = calls w1.
Proof.
  destruct (getGitHubStats Sample.env 5 (Token "ghp_example") (boot 1700000000000))
    as [[o w1] evs1] eqn:H.
  assert (Ho : ∃ r, o = Returned r) by (vm_compute in H; injection H as <- _ _; eauto).
  destruct Ho as [r ->].
  destruct (getGitHubStats_cached Sample.env 5 "ghp_example" (boot 1700000000000)
              r w1 evs1 H) as (entry & Hfind & Hv & _ & Hnext).
  assert (Hfresh : clock (advance 240000 w1) - CacheEntry.start entry ≤ ttl).
  { vm_compute in H. injection H as _ <- _. vm_compute in Hfind.
    injection Hfind as <-. vm_compute. discriminate. }
  destruct (Hnext Sample.flaky 0%nat (advance 240000 w1) Hfind Hfresh)
    as (w2' & Hrun & _ & Hcalls & _).
  exists r, w1, evs1, w2'. split; [reflexivity |]. split; [exact Hrun |]. exact Hcalls.
Defined.

(** C8, as the code has it. A returning run of [getGitHubStats] that missed
    the cache issued exactly four [getAuthenticated] requests: one for the
    contributions query, one for the lister, and two inside the report's
    [user] object (login and avatar). *)
Theorem getGitHubStats_identity_calls env fuel accessToken w r w' evs :
  cache_lookup (clock w) (cacheKey_of accessToken) (cache w) = None →
  getGitHubStats env fuel (Token accessToken) w = (Returned r, w', evs) →
  length (identity_calls evs) = 4%nat ∧ length (identities evs) = 4%nat.
Proof.
  intros Hl H. apply getGitHubStats_miss_Returned in H as (evs' & -> & H); [| done].
  apply fetch_stats_Returned in H as (user & who1 & who2 & who3 & who4 & t & H).
  destruct H as (Hi & Hn & _). split.
  - unfold identity_calls in *. by rewrite filter_cons.
  - change (length (identities evs') = 4%nat). by rewrite Hi.
Qed.

Lemma getGitHubStats_identity_calls_witness :
  ∃ r w' evs,
    getGitHubStats Sample.env 5 (Token "ghp_example") (boot 1700000000000)
      = (Returned r, w', evs)
    ∧ length (identity_calls evs) = 4%nat.
Proof.
  destruct (getGitHubStats Sample.env 5 (Token "ghp_example") (boot 1700000000000))
    as [[o w'] evs] eqn:H.
  assert (Ho : ∃ r, o = Returned r) by (vm_compute in H; injection H as <- _ _; eauto).
  destruct Ho as [r ->]. exists r, w', evs. split; [reflexivity |].
  exact (proj1 (getGitHubStats_identity_calls Sample.env 5 "ghp_example"
                  (boot 1700000000000) r w' evs eq_refl H)).
Defined.

(** C8, as the spec words it, fails: on the sample remote a returning
    cache-miss run issues four identity requests, not three. *)
Lemma three_identity_calls_counterexample :
  ∃ r w' evs,
    cache_lookup (clock (boot 1700000000000)) (cacheKey_of "ghp_example")
      (cache (boot 1700000000000)) = None
    ∧ getGitHubStats Sample.env 5 (Token "ghp_example") (boot 1700000000000)
        = (Returned r, w', evs)
    ∧ length (identity_calls evs) ≠ 3%nat.
Proof.
  destruct (getGitHubStats Sample.env 5 (Token "ghp_example") (boot 1700000000000))
    as [[o w'] evs] eqn:H.
  vm_compute in H. injection H as <- <- <-.
  eexists _, _, _. split; [reflexivity |]. split; [reflexivity |].
  vm_compute. discriminate.
Qed.

(** C3. In a returning run that missed the cache, the listing requests of the
    run form a complete pagination from the null cursor, and [totalRepos] is
    the number of repositories those pages delivered, private and public ones
    alike: no repository is left out by its visibility. *)
Theorem getGitHubStats_totalRepos env fuel accessToken w r w' evs :
  cache_lookup (clock w) (cacheKey_of accessToken) (cache w) = None →
  getGitHubStats env fuel (Token accessToken) w = (Returned r, w', evs) →
  complete_pagination None (pages evs)
  ∧ Report.totalRepos r = N.of_nat (length (listed evs))
  ∧ Report.totalRepos r =
      N.of_nat (length (filter (fun repo => Repository.isPrivate repo) (listed evs))
                + length (filter (fun repo => negb (Repository.isPrivate repo))
                            (listed evs)))
  ∧ length (Report.repos r) = length (listed evs).
Proof.
  intros Hl H. apply getGitHubStats_miss_Returned in H as (evs' & -> & H); [| done].
  apply fetch_stats_Returned in H as (user & who1 & who2 & who3 & who4 & t & H).
  destruct H as (_ & _ & _ & Hp & -> & _).
  change (pages (_ :: evs')) with (pages evs').
  change (listed (_ :: evs')) with (listed evs').
  rewrite length_filter_split, result_of_totalRepos, result_of_repos.
  by rewrite Array_sort_length, length_map.
Qed.

Lemma getGitHubStats_totalRepos_witness :
  ∃ r w' evs,
    getGitHubStats Sample.env 5 (Token "ghp_example") (boot 1700000000000)
      = (Returned r, w', evs)
    ∧ Report.totalRepos r = N.of_nat (length (listed evs))
    ∧ Report.totalRepos r = 3%N
    ∧ length (filter (fun repo => Repository.isPrivate repo) (listed evs)) = 1%nat.
Proof.
  destruct (getGitHubStats Sample.env 5 (Token "ghp_example") (boot 1700000000000))
    as [[o w'] evs] eqn:H.
  assert (Ho : ∃ r, o = Returned r) by (vm_compute in H; injection H as <- _ _; eauto).
  destruct Ho as [r ->]. exists r, w', evs. split; [reflexivity |].
  split.
  - exact (proj1 (proj2 (getGitHubStats_totalRepos Sample.env 5 "ghp_example"
                           (boot 1700000000000) r w' evs eq_refl H))).
  - vm_compute in H. injection H as <- <- <-. split; reflexivity.
Defined.

(** C4. In a returning run that missed the cache, the report's repository
    records are exactly the records built from the listed repositories, one
    per repository, in some order. For each of them the commit count and the
    contribution count both equal the total of the default branch's history;
    when the default branch, its target or the history is absent both are 0,
    and the record is produced all the same. *)
Theorem getGitHubStats_repo_counts env fuel accessToken w r w' evs :
  cache_lookup (clock w) (cacheKey_of accessToken) (cache w) = None →
  getGitHubStats env fuel (Token accessToken) w = (Returned r, w', evs) →
  Report.repos r ≡ₚ map repoStat (listed evs)
  ∧ ∀ repo, In repo (listed evs) →
      In (repoStat repo) (Report.repos r)
      ∧ RepoStats.name (repoStat repo) = Repository.nameWithOwner repo
      ∧ match Repository.defaultBranchRef repo with
        | Some (Ref.mk (Some (GitObject.mk (Some (History.mk total))))) =>
            RepoStats.commits (repoStat repo) = total
            ∧ RepoStats.contributions (repoStat repo) = total
        | _ =>
            RepoStats.commits (repoStat repo) = 0%N
            ∧ RepoStats.contributions (repoStat repo) = 0%N
        end.
Proof.
  intros Hl H. apply getGitHubStats_miss_Returned in H as (evs' & -> & H); [| done].
  apply fetch_stats_Returned in H as (user & who1 & who2 & who3 & who4 & t & H).
  destruct H as (_ & _ & _ & _ & -> & _).
  change (listed (_ :: evs')) with (listed evs').
  rewrite result_of_repos.
  split; [apply Array_sort_perm |].
  intros repo Hin. split; [| split; [done |]].
  - apply list_elem_of_In. rewrite Array_sort_perm.
    apply list_elem_of_fmap_2. by apply list_elem_of_In.
  - unfold repoStat, history_totalCount. simpl.
    destruct (Repository.defaultBranchRef repo) as [[[[[[total]|]]|]]|]; done.
Qed.

Lemma getGitHubStats_repo_counts_witness :
  ∃ r w' evs,
    getGitHubStats Sample.env 5 (Token "ghp_example") (boot 1700000000000)
      = (Returned r, w', evs)
    ∧ Report.repos r ≡ₚ map repoStat (listed evs)
    ∧ map RepoStats.commits (Report.repos r) = [15; 5; 0]%N
    ∧ map RepoStats.contributions (Report.repos r) = [15; 5; 0]%N.
Proof.
  destruct (getGitHubStats Sample.env 5 (Token "ghp_example") (boot 1700000000000))
    as [[o w'] evs] eqn:H.
  assert (Ho : ∃ r, o = Returned r) by (vm_compute in H; injection H as <- _ _; eauto).
  destruct Ho as [r ->]. exists r, w', evs. split; [reflexivity |].
  split.
  - exact (proj1 (getGitHubStats_repo_counts Sample.env 5 "ghp_example"
                    (boot 1700000000000) r w' evs eq_refl H)).
  - vm_compute in H. injection H as <- <- <-. split; reflexivity.
Defined.

(** C9. Every report [getGitHubStats] returns in a reachable world, built
    afresh or served from the cache, has a [contributionsByType] of exactly
    three entries, Commits, Comments and Reviews in this order, whose counts
    are the report's [totalCommits], [totalComments] and [totalReviews]. *)
Theorem getGitHubStats_contributionsByType env fuel accessToken w r w' evs :
  reachable w →
  getGitHubStats env fuel accessToken w = (Returned r, w', evs) →
  Report.contributionsByType r =
    [ TypeCount.mk "Commits" (Report.totalCommits r);
      TypeCount.mk "Comments" (Report.totalComments r);
      TypeCount.mk "Reviews" (Report.totalReviews r) ].
Proof.
  intros Hw H.
  pose proof (reachable_cache typed_by_totals result_of_typed_by_totals w Hw) as Hc.
  destruct (getGitHubStats_preserves typed_by_totals result_of_typed_by_totals
              _ _ _ _ _ _ _ Hc H) as [_ Hr].
  by apply Hr.
Qed.

Lemma getGitHubStats_contributionsByType_witness :
  ∃ o1 w1 evs1 r w2 evs2,
    getGitHubStats Sample.env 5 (Token "ghp_example") (boot 1700000000000)
      = (o1, w1, evs1)
    ∧ getGitHubStats Sample.flaky 5 (Token "ghp_example") w1 = (Returned r, w2, evs2)
    ∧ Report.contributionsByType r =
        [ TypeCount.mk "Commits" (Report.totalCommits r);
          TypeCount.mk "Comments" (Report.totalComments r);
          TypeCount.mk "Reviews" (Report.totalReviews r) ].
Proof.
  destruct (getGitHubStats Sample.env 5 (Token "ghp_example") (boot 1700000000000))
    as [[o1 w1] evs1] eqn:H1.
  destruct (getGitHubStats Sample.flaky 5 (Token "ghp_example") w1)
    as [[o2 w2] evs2] eqn:H2.
  assert (Ho : ∃ r, o2 = Returned r).
  { vm_compute in H1. injection H1 as _ <- _.
    vm_compute in H2. injection H2 as <- _ _. eauto. }
  destruct Ho as [r ->]. exists o1, w1, evs1, r, w2, evs2.
  split; [reflexivity |]. split; [exact H2 |].
  exact (getGitHubStats_contributionsByType Sample.flaky 5 (Token "ghp_example") w1 r w2 evs2
           (reachable_call Sample.env 5 (Token "ghp_example") (boot 1700000000000)
              o1 w1 evs1 (reachable_boot 1700000000000) H1)
           H2).
Defined.

(** ** The weekday table *)

Lemma sum_N_app l1 l2 : sum_N (l1 ++ l2) = (sum_N l1 + sum_N l2)%N.
Proof. induction l1 as [| a l1 IH]; simpl; [done |]. rewrite IH. lia. Qed.




Section Calendar.
Variable tz : string → string.





Lemma contributionsByDay_of_days table :
  map DayCount.day (contributionsByDay_of table) = daysOrder.
Proof. reflexivity. Qed.

End Calendar.

(** ** The rate limiter *)

(** What one uninterrupted call of [rateLimit] establishes when the timer
    does not fire before the delay it was set to: the call returns, at a time
    at least [minInterval] after the last-call timestamp it read, and leaves
    that time as the new timestamp. *)
Lemma rateLimit_spacing env w :
  0 ≤ timerLag env (clock w) →
  ∃ w' evs,
    rateLimit env w = (Returned tt, w', evs)
    ∧ lastCall w + minInterval ≤ clock w'
    ∧ clock w ≤ clock w'
    ∧ lastCall w' = clock w'.
Proof.
  intros Hlag. rewrite rateLimit_eq.
  destruct (clock w - lastCall w <? minInterval) eqn:Hwait; eexists _, _;
    (split; [reflexivity |]); simpl; unfold minInterval in *; lia.
Qed.

(** A call of [rateLimit] that nothing interleaves with is a run of the step
    relation: it enters, time passes while it waits, and it resumes. *)
Lemma rateLimit_steps env w w' evs :
  0 ≤ timerLag env (clock w) →
  rateLimit env w = (Returned tt, w', evs) →
  throttle_steps (w, [Idle]) (w', [Calling (clock w) (clock w')]).
Proof.
  intros Hlag. rewrite rateLimit_eq.
  destruct (clock w - lastCall w <? minInterval) eqn:Hwait; intros [= <- <-].
  - eapply steps_step; [apply (step_enter_wait _ _ 0%nat); [done | lia] |].
    eapply steps_step;
      [apply (step_time _ _ (minInterval - (clock w - lastCall w) + timerLag env (clock w)));
       unfold minInterval in *; lia |].
    eapply steps_step;
      [eapply (step_resume _ _ 0%nat); [reflexivity | simpl; lia] | apply steps_refl].
  - eapply steps_step;
      [apply (step_enter_pass _ _ 0%nat); [reflexivity | lia] | apply steps_refl].
Qed.

(** C7, where the code departs from it. A call was let through at
    1700000000000 ms. A first caller enters the rate limiter 200 ms later and
    a second one 100 ms after the first, while the first is still waiting:
    both read the same last-call timestamp, both timers fire at 1700000001000,
    and both callers start their remote calls at that same instant instead of
    1000 ms apart. *)
Theorem rateLimit_interleaved_callers :
  let w0 := {| clock := 1700000000200; lastCall := 1700000000000;
               cache := []; calls := 6 |} in
  ∃ w entered1 since1 entered2 since2,
    throttle_steps (w0, [Idle; Idle])
      (w, [Calling entered1 since1; Calling entered2 since2])
    ∧ entered2 - entered1 = 100
    ∧ since2 - since1 = 0
    ∧ since2 - since1 < minInterval.
Proof.
  intros w0.
  exists (stamp (stamp (advance 700 (advance 100 w0)))),
    1700000000200, 1700000001000, 1700000000300, 1700000001000.
  split; [| done].
  eapply steps_step; [apply (step_enter_wait _ _ 0%nat); [done | done] |].
  eapply steps_step; [apply (step_time _ _ 100); done |].
  eapply steps_step; [apply (step_enter_wait _ _ 1%nat); [done | done] |].
  eapply steps_step; [apply (step_time _ _ 700); done |].
  eapply steps_step; [eapply (step_resume _ _ 0%nat); [done | done] |].
  eapply steps_step; [eapply (step_resume _ _ 1%nat); [done | done] |].
  apply steps_refl.
Qed.

(** ** Language shares *)

Lemma fold_left_add l : ∀ acc, fold_left (fun sum count => (sum + count)%N) l acc
                               = (acc + sum_N l)%N.
Proof.
  induction l as [| a l IH]; intros acc; simpl; [lia |]. rewrite IH. lia.
Qed.

Lemma totalLanguageCommits_of_sum languageStats :
  totalLanguageCommits_of languageStats = sum_N (map snd languageStats).
Proof. unfold totalLanguageCommits_of. by rewrite fold_left_add. Qed.

(** [o[k] = (o[k] || 0) + c] adds [c] to the sum of the values. *)
Lemma obj_set_sum k c o :
  sum_N (map snd (obj_set k (or0 (obj_get k o) + c) o)) = (sum_N (map snd o) + c)%N.
Proof.
  induction o as [| [k' v'] o IH]; simpl; [lia |].
  destruct (String.eqb k k'); simpl; [lia |]. rewrite IH. lia.
Qed.

Lemma count_language_sum languageStats repo :
  sum_N (map snd (count_language languageStats repo))
  = (sum_N (map snd languageStats)
     + (if has_language repo then RepoStats.commits repo else 0))%N.
Proof.
  unfold count_language, has_language.
  destruct (RepoStats.language repo) as [language |]; [| lia].
  destruct (truthy language); [apply obj_set_sum | lia].
Qed.

Lemma fold_count_language_sum repoStats :
  ∀ acc,
    sum_N (map snd (fold_left count_language repoStats acc))
    = (sum_N (map snd acc) + language_commits repoStats)%N.
Proof.
  unfold language_commits.
  induction repoStats as [| repo repoStats IH]; intros acc; simpl; [lia |].
  rewrite IH, count_language_sum, filter_cons.
  destruct (has_language repo); simpl; lia.
Qed.

Lemma languageStats_of_sum repoStats :
  totalLanguageCommits_of (languageStats_of repoStats) = language_commits repoStats.
Proof.
  rewrite totalLanguageCommits_of_sum. unfold languageStats_of.
  by rewrite fold_count_language_sum.
Qed.

(** Repositories without a detected language leave the table as it is. *)
Lemma count_language_skip languageStats repo :
  has_language repo = false → count_language languageStats repo = languageStats.
Proof.
  unfold has_language, count_language.
  destruct (RepoStats.language repo) as [language |]; [| done].
  by intros ->.
Qed.

Lemma fold_count_language_filter repoStats :
  ∀ acc,
    fold_left count_language repoStats acc
    = fold_left count_language (filter (fun repo => has_language repo) repoStats) acc.
Proof.
  induction repoStats as [| repo repoStats IH]; intros acc; [done |].
  rewrite filter_cons. simpl.
  destruct (has_language repo) eqn:Hrepo; simpl.
  - apply IH.
  - rewrite count_language_skip by done. apply IH.
Qed.

Lemma Qsum_perm l1 l2 : l1 ≡ₚ l2 → (Qsum l1 == Qsum l2)%Q.
Proof.
  induction 1 as [| x l1 l2 _ IH | x y l | l1 l2 l3 _ IH1 _ IH2]; simpl.
  - reflexivity.
  - by rewrite IH.
  - ring.
  - by rewrite IH1.
Qed.

Lemma sum_percentages_finite l :
  Forall (fun s => LanguageShare.percentage s
                   = Finite (finite_part (LanguageShare.percentage s))) l →
  sum_percentages l = Finite (Qsum (map (fun s => finite_part (LanguageShare.percentage s)) l)).
Proof.
  induction 1 as [| s l Hs _ IH]; [done |].
  simpl. by rewrite IH, Hs.
Qed.

Lemma shares_sum p languageStats :
  (Qsum (map (fun s => finite_part (LanguageShare.percentage s))
           (map (share (Npos p)) languageStats))
   == (Z.of_N (sum_N (map snd languageStats)) # p) * inject_Z 100)%Q.
Proof.
  induction languageStats as [| [k c] languageStats IH]; simpl.
  - unfold Qeq. simpl. lia.
  - rewrite IH. unfold Qeq, Qplus, Qmult. simpl.
    rewrite N2Z.inj_add. lia.
Qed.

(** With at least one commit among the repositories that have a detected
    language, every share is finite and the shares sum to 100. *)
Lemma languages_of_sum repoStats :
  (0 < language_commits repoStats)%N →
  ∃ q, sum_percentages (languages_of (languageStats_of repoStats)) = Finite q
       ∧ (q == 100)%Q.
Proof.
  intros Hpos. unfold languages_of.
  rewrite languageStats_of_sum.
  destruct (language_commits repoStats) as [| p] eqn:Htotal; [lia |].
  set (languageStats := languageStats_of repoStats).
  set (cmp := fun a b => number_sub (LanguageShare.percentage b) (LanguageShare.percentage a)).
  assert (Hfin : Forall (fun s => LanguageShare.percentage s
                   = Finite (finite_part (LanguageShare.percentage s)))
                   (Array_sort cmp (map (share (Npos p)) languageStats))).
  { rewrite Array_sort_perm. apply Forall_forall. intros s Hs.
    apply list_elem_of_fmap in Hs as (entry & -> & _). reflexivity. }
  rewrite (sum_percentages_finite _ Hfin). eexists. split; [reflexivity |].
  rewrite (Qsum_perm _
             (map (fun s => finite_part (LanguageShare.percentage s))
                (map (share (Npos p)) languageStats))).
  - rewrite shares_sum. fold languageStats in Htotal.
    rewrite <- totalLanguageCommits_of_sum. unfold languageStats.
    rewrite languageStats_of_sum, Htotal. unfold Qeq. simpl. lia.
  - apply fmap_Permutation, Array_sort_perm.
Qed.

(** Without any repository that has a detected language the list is empty. *)
Lemma languages_of_none repoStats :
  Forall (fun repo => has_language repo = false) repoStats →
  languages_of (languageStats_of repoStats) = [].
Proof.
  intros Hnone. unfold languageStats_of. rewrite fold_count_language_filter.
  replace (filter (fun repo => has_language repo) repoStats) with (@nil RepoStats.t);
    [done |].
  symmetry. induction Hnone as [| repo repoStats Hrepo _ IH]; [done |].
  rewrite filter_cons, Hrepo. simpl. exact IH.
Qed.

(** Repositories without a detected language do not change any share. *)
Lemma languages_of_filter repoStats :
  languages_of (languageStats_of repoStats)
  = languages_of (languageStats_of (filter (fun repo => has_language repo) repoStats)).
Proof. unfold languageStats_of. by rewrite fold_count_language_filter. Qed.

(** C2, where the code departs from it. The listing holds a repository with
    detected language Go whose default branch counts no commit (and one
    repository without a language). The table is [{Go: 0}], the total is 0,
    and the one share is [0 / 0 * 100]: the report's language list is
    [{name: "Go", percentage: NaN}] and its percentages sum to [NaN], not
    to 100. *)
Theorem getGitHubStats_languages_zero_total :
  ∃ r w' evs,
    getGitHubStats Sample.dormant 5 (Token "ghp_example") (boot 1700000000000)
      = (Returned r, w', evs)
    ∧ map RepoStats.language (Report.repos r) = [None; Some "Go"]
    ∧ Report.languages r = [LanguageShare.mk "Go" NaN]
    ∧ sum_percentages (Report.languages r) = NaN.
Proof.
  destruct (getGitHubStats Sample.dormant 5 (Token "ghp_example") (boot 1700000000000))
    as [[o w'] evs] eqn:H.
  vm_compute in H. injection H as <- <- <-.
  eexists _, _, _. split; [reflexivity |]. by vm_compute.
Qed.

(** ** Runs that are bound to return *)

Section Totality.
Variable env : Env.
Variable bound : nat.
Hypothesis Hanswers : answers env bound.

Lemma getAuthenticated_returns auth w :
  ∃ who, octokit_users_getAuthenticated env auth w
         = (Returned who, after_call (latency env (calls w)) w,
            [(clock w, GetAuthenticated auth (inr who))]).
Proof.
  destruct Hanswers as (Hwho & _). destruct (Hwho (calls w) auth) as [who Hr].
  exists who. unfold octokit_users_getAuthenticated, await_remote. by rewrite Hr.
Qed.

Lemma getAllRepositories_loop_returns fuel auth login :
  ∀ repositories cursor w,
    (0 < fuel)%nat → (bound < calls w + fuel)%nat →
    ∃ result w' evs,
      getAllRepositories_loop env fuel auth login repositories cursor w
        = (Returned result, w', evs)
      ∧ (calls w < calls w')%nat.
Proof.
  induction fuel as [| fuel IH]; intros repositories cursor w Hfuel Hbound; [lia |].
  destruct Hanswers as (_ & _ & Hpage).
  destruct (Hpage (calls w) auth login cursor) as (page & Hr & Hlast).
  simpl. unfold bind, query_repositories, await_remote. rewrite Hr.
  destruct (PageInfo.hasNextPage (RepositoryConnection.pageInfo page)) eqn:Hnext.
  - assert ((calls w < bound)%nat)
      by (destruct (decide (bound ≤ calls w)%nat) as [Hle |]; [| lia];
          specialize (Hlast Hle); discriminate).
    destruct (IH (repositories ++ RepositoryConnection.nodes page)
                (PageInfo.endCursor (RepositoryConnection.pageInfo page))
                (after_call (latency env (calls w)) w))
      as (result & w' & evs & -> & Hcalls); [lia | simpl; lia |].
    eexists _, _, _. split; [reflexivity |]. simpl in Hcalls. lia.
  - eexists _, _, _. split; [reflexivity |]. simpl. lia.
Qed.

(** Against a remote that answers, with fuel for every page, a call with a
    credential returns a report. *)
Lemma getGitHubStats_returns fuel accessToken w :
  truthy accessToken = true →
  (0 < fuel)%nat → (bound < calls w + 3 + fuel)%nat →
  ∃ r w' evs, getGitHubStats env fuel (Token accessToken) w = (Returned r, w', evs).
Proof.
  intros Ht Hfuel Hbound.
  destruct (cache_lookup (clock w) (cacheKey_of accessToken) (cache w)) as [entry |] eqn:Hl.
  { rewrite (getGitHubStats_hit _ _ _ _ _ Ht Hl). by eexists _, _, _. }
  rewrite getGitHubStats_miss, try_catch_rethrow by done.
  unfold fetch_stats, getAllRepositories. unfold bind at 1. rewrite rateLimit_eq.
  set (w1 := if clock w - lastCall w <? minInterval
             then stamp (advance (minInterval - (clock w - lastCall w)
                                  + timerLag env (clock w)) w)
             else stamp w).
  assert (Hc1 : calls w1 = calls w)
    by (unfold w1; by destruct (clock w - lastCall w <? minInterval)).
  assert (Hrun : ∃ r w' evs,
    (let* who1 := octokit_users_getAuthenticated env accessToken in
     let* user := query_contributions env accessToken (AuthenticatedUser.login who1) in
     let* who2 := octokit_users_getAuthenticated env accessToken in
     let* allRepositories :=
       getAllRepositories_loop env fuel accessToken (AuthenticatedUser.login who2) [] None in
     let* who3 := octokit_users_getAuthenticated env accessToken in
     let* who4 := octokit_users_getAuthenticated env accessToken in
     cache_set (cacheKey_of accessToken)
       (result_of (toLocaleDateString env) user allRepositories who3 who4);;
     ret (result_of (toLocaleDateString env) user allRepositories who3 who4)) w1
    = (Returned r, w', evs)).
  { unfold bind at 1. destruct (getAuthenticated_returns accessToken w1) as [who1 ->].
    unfold bind at 1. unfold query_contributions at 1, await_remote at 1.
    destruct Hanswers as (_ & Hcoll & _).
    destruct (Hcoll (calls (after_call (latency env (calls w1)) w1)) accessToken
                (AuthenticatedUser.login who1)) as [user ->].
    set (w3 := after_call _ (after_call _ w1)).
    unfold bind at 1. destruct (getAuthenticated_returns accessToken w3) as [who2 ->].
    set (w4 := after_call _ w3).
    unfold bind at 1.
    destruct (getAllRepositories_loop_returns fuel accessToken
                (AuthenticatedUser.login who2) [] None w4)
      as (repos & w5 & evs5 & -> & _); [done | unfold w4, w3; simpl; lia |].
    unfold bind at 1. destruct (getAuthenticated_returns accessToken w5) as [who3 ->].
    set (w6 := after_call _ w5).
    unfold bind at 1. destruct (getAuthenticated_returns accessToken w6) as [who4 ->].
    unfold bind, cache_set, ret. by eexists _, _, _. }
  destruct Hrun as (r & w' & evs & Hrun).
  destruct (clock w - lastCall w <? minInterval); fold w1; rewrite Hrun;
    by eexists _, _, _.
Qed.

End Totality.

(** ** When the remote calls of a run start *)

Lemma keeps_lastCall_bind {A B} (m : M A) (k : A → M B) :
  keeps_lastCall m → (∀ a, keeps_lastCall (k a)) → keeps_lastCall (bind m k).
Proof.
  intros Hm Hk w o w' evs H.
  apply bind_inv in H as [(a & w1 & e1 & e2 & H1 & H2 & ->) | [(e & H1 & ->) | (H1 & ->)]].
  - apply Hm in H1. apply Hk in H2. congruence.
  - by apply Hm in H1.
  - by apply Hm in H1.
Qed.

Section Starts.
Variable env : Env.

Lemma getAuthenticated_run auth w o w' evs :
  octokit_users_getAuthenticated env auth w = (o, w', evs) →
  ∃ response,
    evs = [(clock w, GetAuthenticated auth response)] ∧ lastCall w' = lastCall w.
Proof.
  unfold octokit_users_getAuthenticated, await_remote. intros [= <- <- <-].
  by eexists.
Qed.

Lemma keeps_lastCall_getAuthenticated auth :
  keeps_lastCall (octokit_users_getAuthenticated env auth).
Proof. intros w o w' evs H. by apply getAuthenticated_run in H as (? & _ & ?). Qed.

Lemma keeps_lastCall_query_contributions auth login :
  keeps_lastCall (query_contributions env auth login).
Proof. by intros w o w' evs [= <- <- <-]. Qed.

Lemma keeps_lastCall_getAllRepositories_loop fuel auth login :
  ∀ repositories cursor,
    keeps_lastCall (getAllRepositories_loop env fuel auth login repositories cursor).
Proof.
  induction fuel as [| fuel IH]; intros repositories cursor; simpl.
  - by intros w o w' evs [= <- <- <-].
  - apply keeps_lastCall_bind; [by intros w o w' evs [= <- <- <-] |].
    intros user. destruct (PageInfo.hasNextPage _); [apply IH |].
    by intros w o w' evs [= <- <- <-].
Qed.

(** Whatever its outcome, the [try] block starts its first remote call at the
    instant its rate limiter call finished, which is the timestamp it leaves
    in [lastCall]; with a timer that is never early, that instant is at least
    [minInterval] after the timestamp the run found. *)
Lemma fetch_stats_start fuel accessToken w o w' evs :
  fetch_stats env fuel accessToken w = (o, w', evs) →
  first_remote_call evs = Some (lastCall w')
  ∧ (0 ≤ timerLag env (clock w) → lastCall w + minInterval ≤ lastCall w').
Proof.
  unfold fetch_stats. intros H.
  apply bind_inv in H as [([] & wR & eR & e2 & HR & H & ->) | [(e & HR & _) | (HR & _)]];
    [| rewrite rateLimit_eq in HR; destruct (_ <? _); discriminate ..].
  assert (Hstamp : lastCall wR = clock wR ∧ remote_calls eR = []
                   ∧ (0 ≤ timerLag env (clock w) → lastCall w + minInterval ≤ clock wR)).
  { rewrite rateLimit_eq in HR.
    destruct (clock w - lastCall w <? minInterval) eqn:Hwait; injection HR as <- <-;
      simpl; unfold minInterval in *; repeat split; lia. }
  destruct Hstamp as (Hstamp & HeR & Hspace).
  assert (Hkeep : lastCall w' = lastCall wR ∧
                  ∃ response rest, e2 = (clock wR, GetAuthenticated accessToken response) :: rest).
  { apply bind_inv in H as [(who1 & w1 & e1 & e3 & H1 & H & ->) | [(e & H1 & _) | (H1 & _)]].
    - apply getAuthenticated_run in H1 as (response & -> & Hl1).
      split; [| by eexists _, _]. rewrite <- Hl1. revert H.
      generalize w1 o w' e3. change (keeps_lastCall
        (let* user := query_contributions env accessToken (AuthenticatedUser.login who1) in
         let* who2 := octokit_users_getAuthenticated env accessToken in
         let* allRepositories :=
           getAllRepositories env fuel accessToken (AuthenticatedUser.login who2) in
         let* who3 := octokit_users_getAuthenticated env accessToken in
         let* who4 := octokit_users_getAuthenticated env accessToken in
         cache_set (cacheKey_of accessToken)
           (result_of (toLocaleDateString env) user allRepositories who3 who4);;
         ret (result_of (toLocaleDateString env) user allRepositories who3 who4))).
      apply keeps_lastCall_bind; [apply keeps_lastCall_query_contributions | intros user].
      apply keeps_lastCall_bind; [apply keeps_lastCall_getAuthenticated | intros who2].
      apply keeps_lastCall_bind;
        [apply keeps_lastCall_getAllRepositories_loop | intros allRepositories].
      apply keeps_lastCall_bind; [apply keeps_lastCall_getAuthenticated | intros who3].
      apply keeps_lastCall_bind; [apply keeps_lastCall_getAuthenticated | intros who4].
      by intros ? ? ? ? [= <- <- <-].
    - apply getAuthenticated_run in H1 as (response & -> & Hl1). split; [done |].
      by eexists _, _.
    - apply getAuthenticated_run in H1 as (response & -> & Hl1). split; [done |].
      by eexists _, _. }
  destruct Hkeep as (Hkeep & response & rest & ->).
  split; [| intros Hlag; rewrite Hkeep, Hstamp; by apply Hspace].
  unfold first_remote_call. rewrite remote_calls_app, HeR. simpl.
  congruence.
Qed.

End Starts.

(** Two calls in sequence. When a call that reached the remote has finished
    and a later call reaches the remote too, with no other call in between,
    the later call starts its first remote call at least [minInterval] after
    the earlier call started its own. *)
Theorem sequential_calls_spaced env1 fuel1 token1 w o1 w1 evs1
    env2 fuel2 token2 idle o2 w2 evs2 t1 t2 :
  0 ≤ timerLag env2 (clock w1 + idle) →
  getGitHubStats env1 fuel1 token1 w = (o1, w1, evs1) →
  getGitHubStats env2 fuel2 token2 (advance idle w1) = (o2, w2, evs2) →
  first_remote_call evs1 = Some t1 →
  first_remote_call evs2 = Some t2 →
  t1 + minInterval ≤ t2.
Proof.
  assert (Hmiss : ∀ env fuel token w o w' evs t,
    getGitHubStats env fuel token w = (o, w', evs) →
    first_remote_call evs = Some t →
    t = lastCall w' ∧ (0 ≤ timerLag env (clock w) → lastCall w + minInterval ≤ t)).
  { intros env fuel token w0 o w' evs t H Ht.
    destruct token as [| | accessToken]; try (injection H as <- <- <-; discriminate).
    destruct (truthy accessToken) eqn:Htr;
      [| unfold getGitHubStats in H; rewrite Htr in H; injection H as <- <- <-;
         discriminate].
    destruct (cache_lookup (clock w0) (cacheKey_of accessToken) (cache w0))
      as [entry |] eqn:Hl.
    { rewrite (getGitHubStats_hit _ _ _ _ _ Htr Hl) in H. injection H as <- <- <-.
      discriminate. }
    rewrite getGitHubStats_miss, try_catch_rethrow in H by done.
    destruct (fetch_stats env fuel accessToken w0) as [[o0 w0'] evs0] eqn:Hf.
    apply fetch_stats_start in Hf as [Hfirst Hspace].
    assert (Hsame : first_remote_call evs = first_remote_call evs0 ∧ lastCall w' = lastCall w0').
    { unfold first_remote_call, remote_calls in *.
      destruct o0; injection H as <- <- <-; rewrite filter_cons; simpl; [done | | done].
      split; [| done]. rewrite filter_app.
      destruct (filter is_remote_call evs0); [discriminate | done]. }
    destruct Hsame as [Hsame ->]. rewrite Hsame, Hfirst in Ht. injection Ht as <-.
    by split. }
  intros Hlag H1 H2 Ht1 Ht2.
  apply (Hmiss _ _ _ _ _ _ _ _ H1) in Ht1 as [-> _].
  apply (Hmiss _ _ _ _ _ _ _ _ H2) in Ht2 as [_ Hspace]. simpl in Hspace. auto.
Qed.

Lemma sequential_calls_spaced_witness :
  ∃ o1 w1 evs1 o2 w2 evs2,
    getGitHubStats Sample.flaky 5 (Token "ghp_example") (boot 1700000000000)
      = (o1, w1, evs1)
    ∧ getGitHubStats Sample.flaky 5 (Token "ghp_example") (advance 80 w1) = (o2, w2, evs2)
    ∧ first_remote_call evs1 = Some 1700000000000
    ∧ first_remote_call evs2 = Some 1700000001000
    ∧ 1700000000000 + minInterval ≤ 1700000001000.
Proof.
  destruct (getGitHubStats Sample.flaky 5 (Token "ghp_example") (boot 1700000000000))
    as [[o1 w1] evs1] eqn:H1.
  destruct (getGitHubStats Sample.flaky 5 (Token "ghp_example") (advance 80 w1))
    as [[o2 w2] evs2] eqn:H2.
  assert (Ht1 : first_remote_call evs1 = Some 1700000000000)
    by (vm_compute in H1; injection H1 as _ _ <-; reflexivity).
  assert (Ht2 : first_remote_call evs2 = Some 1700000001000).
  { vm_compute in H1. injection H1 as _ <- _.
    vm_compute in H2. injection H2 as _ _ <-. reflexivity. }
  exists o1, w1, evs1, o2, w2, evs2.
  split; [reflexivity |]. split; [exact H2 |]. split; [exact Ht1 |]. split; [exact Ht2 |].
  refine (sequential_calls_spaced Sample.flaky 5 (Token "ghp_example")
            (boot 1700000000000) o1 w1 evs1
            Sample.flaky 5 (Token "ghp_example") 80 o2 w2 evs2 _ _ _ H1 H2 Ht1 Ht2).
  vm_compute. discriminate.
Defined.

(** The language shares of a report built by a run that missed the cache,
    with the divisions carried out exactly (the code rounds each share to a
    double, so that its sum is 100 up to rounding). When no detected language
    bears a name that a plain object inherits and the listed repositories
    with a detected language have at least one commit between them, the
    shares are finite and sum to 100; when no listed repository has a
    detected language the list is empty; and the list is the one computed
    from the repositories with a detected language alone. *)
Theorem getGitHubStats_languages env fuel accessToken w r w' evs :
  cache_lookup (clock w) (cacheKey_of accessToken) (cache w) = None →
  getGitHubStats env fuel (Token accessToken) w = (Returned r, w', evs) →
  (plain_languages (listed evs) = true →
   (0 < language_commits (map repoStat (listed evs)))%N →
   ∃ q, sum_percentages (Report.languages r) = Finite q ∧ (q == 100)%Q)
  ∧ (Forall (fun repo => has_language repo = false) (map repoStat (listed evs)) →
     Report.languages r = [])
  ∧ Report.languages r =
      languages_of
        (languageStats_of
           (filter (fun repo => has_language repo) (map repoStat (listed evs)))).
Proof.
  intros Hl H. apply getGitHubStats_miss_Returned in H as (evs' & -> & H); [| done].
  apply fetch_stats_Returned in H as (user & who1 & who2 & who3 & who4 & t & H).
  destruct H as (_ & _ & _ & _ & -> & _).
  change (listed (_ :: evs')) with (listed evs').
  rewrite result_of_languages. split; [| split].
  - intros _. apply languages_of_sum.
  - apply languages_of_none.
  - apply languages_of_filter.
Qed.

Lemma getGitHubStats_languages_witness :
  ∃ r w' evs q,
    getGitHubStats Sample.env 5 (Token "ghp_example") (boot 1700000000000)
      = (Returned r, w', evs)
    ∧ sum_percentages (Report.languages r) = Finite q ∧ (q == 100)%Q.
Proof.
  destruct (getGitHubStats Sample.env 5 (Token "ghp_example") (boot 1700000000000))
    as [[o w'] evs] eqn:H.
  assert (Ho : ∃ r, o = Returned r) by (vm_compute in H; injection H as <- _ _; eauto).
  destruct Ho as [r ->].
  assert (Hpos : (0 < language_commits (map repoStat (listed evs)))%N)
    by (vm_compute in H; injection H as _ _ <-; reflexivity).
  assert (Hplain : plain_languages (listed evs) = true)
    by (vm_compute in H; injection H as _ _ <-; reflexivity).
  destruct (proj1 (getGitHubStats_languages Sample.env 5 "ghp_example"
                     (boot 1700000000000) r w' evs eq_refl H) Hplain Hpos)
    as (q & Hq & H100).
  exists r, w', evs, q. split; [reflexivity |]. split; [exact Hq | exact H100].
Defined.

(** ** Order of the repository list *)

Lemma by_commits_desc_positive a b :
  is_positive (by_commits_desc a b) = (RepoStats.commits a <? RepoStats.commits b)%N.
Proof.
  unfold by_commits_desc, number_sub, of_N. simpl.
  destruct (RepoStats.commits a <? RepoStats.commits b)%N eqn:Hlt.
  - apply N.ltb_lt in Hlt. apply Z.ltb_lt. lia.
  - apply N.ltb_ge in Hlt. apply Z.ltb_ge. lia.
Qed.

Lemma sort_insert_descending a l :
  StronglySorted (fun x y => (RepoStats.commits y ≤ RepoStats.commits x)%N) l →
  StronglySorted (fun x y => (RepoStats.commits y ≤ RepoStats.commits x)%N)
    (sort_insert by_commits_desc a l).
Proof.
  induction 1 as [| b l Hl IH Hb].
  - repeat constructor.
  - change (sort_insert by_commits_desc a (b :: l))
      with (if is_positive (by_commits_desc a b)
            then b :: sort_insert by_commits_desc a l else a :: b :: l).
    rewrite by_commits_desc_positive.
    destruct (RepoStats.commits a <? RepoStats.commits b)%N eqn:Hlt.
    + apply N.ltb_lt in Hlt. constructor; [done |].
      rewrite sort_insert_perm. constructor; [lia | done].
    + apply N.ltb_ge in Hlt. constructor; [by constructor |].
      constructor; [done |]. eapply Forall_impl; [exact Hb |]. simpl. intros; lia.
Qed.

(** The repository list of an assembled report is in descending order of
    commits. *)
Lemma result_of_repos_descending tz user repos who who' :
  StronglySorted (fun x y => (RepoStats.commits y ≤ RepoStats.commits x)%N)
    (Report.repos (result_of tz user repos who who')).
Proof.
  rewrite result_of_repos. induction (map repoStat repos) as [| a l IH]; simpl.
  - constructor.
  - by apply sort_insert_descending.
Qed.

(** The two-repository scenario of the specification. *)
Example scenario_two_repositories :
  ∃ r w' evs,
    getGitHubStats Sample.two 5 (Token "ghp_example") (boot 1700000000000)
      = (Returned r, w', evs)
    ∧ Report.totalRepos r = 2%N
    ∧ map RepoStats.commits (Report.repos r) = [10; 5]%N
    ∧ map LanguageShare.name (Report.languages r) = ["Go"]
    ∧ (Qsum (map (fun s => finite_part (LanguageShare.percentage s)) (Report.languages r))
       == 100)%Q
    ∧ map DayCount.count (Report.contributionsByDay r) = [0; 0; 0; 0; 0; 0; 0]%N.
Proof.
  destruct (getGitHubStats Sample.two 5 (Token "ghp_example") (boot 1700000000000))
    as [[o w'] evs] eqn:H.
  vm_compute in H. injection H as <- <- <-.
  eexists _, _, _. split; [reflexivity |]. by vm_compute.
Qed.

Lemma rateLimit_spacing_witness :
  ∃ w' evs,
    rateLimit Sample.env
      {| clock := 1700000000300; lastCall := 1700000000000; cache := []; calls := 7 |}
      = (Returned tt, w', evs)
    ∧ 1700000000000 + minInterval ≤ clock w'
    ∧ lastCall w' = clock w'.
Proof.
  destruct (rateLimit_spacing Sample.env
              {| clock := 1700000000300; lastCall := 1700000000000;
                 cache := []; calls := 7 |})
    as (w' & evs & Hrun & Hspace & _ & Hstamp).
  - vm_compute. discriminate.
  - exists w', evs. split; [exact Hrun |]. split; [exact Hspace | exact Hstamp].
Defined.

Lemma getGitHubStats_returns_witness :
  ∃ r w' evs,
    getGitHubStats Sample.two 1 (Token "ghp_example") (boot 1700000000000)
      = (Returned r, w', evs).
Proof.
  apply (getGitHubStats_returns Sample.two 0).
  - split; [| split].
    + intros n auth. by eexists.
    + intros n auth login. by eexists.
    + intros n auth login cursor. by eexists.
  - reflexivity.
  - apply Nat.lt_0_1.
  - simpl. lia.
Defined.

(** * Further properties of the code *)

(** ** The lister on its own *)

Lemma getAllRepositories_loop_trace env fuel auth login :
  ∀ repositories cursor w o w' evs,
    getAllRepositories_loop env fuel auth login repositories cursor w = (o, w', evs) →
    calls w' = (calls w + length evs)%nat
    ∧ (length evs ≤ fuel)%nat
    ∧ match o with
      | Returned result =>
          Forall (is_listing_for auth login) evs ∧ (0 < length evs)%nat
      | Thrown e =>
          ∃ answered t cursor',
            evs = answered ++ [(t, QueryRepositories auth login cursor' (inl e))]
            ∧ Forall (is_listing_for auth login) answered
      | Diverged =>
          Forall (is_listing_for auth login) evs ∧ length evs = fuel
          ∧ Forall (fun p => PageInfo.hasNextPage (RepositoryConnection.pageInfo (snd p))
                             = true) (pages evs)
      end.
Proof.
  induction fuel as [| fuel IH]; intros repositories cursor w o w' evs; simpl.
  - intros [= <- <- <-]. simpl. repeat split; auto with lia.
  - unfold bind, query_repositories, await_remote.
    destruct (graphql_repositories env (calls w) auth login cursor) as [e | page] eqn:Hr.
    + intros [= <- <- <-]. simpl. repeat split; [lia | lia |].
      by exists [], (clock w), cursor.
    + destruct (PageInfo.hasNextPage (RepositoryConnection.pageInfo page)) eqn:Hnext.
      * destruct (getAllRepositories_loop env fuel auth login _ _ _) as [[o2 w2] evs2] eqn:H2.
        intros [= <- <- <-]. apply IH in H2 as (Hc & Hl & Ho). simpl in *.
        repeat split; [lia | lia |].
        destruct o2 as [result | e |].
        -- destruct Ho as [Ho _]. split; [| lia]. by constructor.
        -- destruct Ho as (answered & t & cursor' & -> & Ho).
           exists ((clock w, QueryRepositories auth login cursor (inr page)) :: answered),
             t, cursor'. split; [done |]. by constructor.
        -- destruct Ho as (Ho & <- & Hp). split; [by constructor |]. split; [done |].
           change (pages (?ev :: evs2)) with ((cursor, page) :: pages evs2).
           by constructor.
      * intros [= <- <- <-]. simpl. repeat split; [lia | lia | | lia].
        by repeat constructor.
Qed.

(** A returning call of the lister delivers the repositories of every page it
    fetched, in the order the remote gave them. It made one request per page,
    each with the caller's token and login and with the end cursor of the page
    before, starting from the null cursor and stopping at the first page that
    reports no next page; it made no other call and left the cache and the
    rate limiter alone. *)
Theorem getAllRepositories_Returned env fuel auth login w result w' evs :
  getAllRepositories env fuel auth login w = (Returned result, w', evs) →
  result = listed evs
  ∧ complete_pagination None (pages evs)
  ∧ Forall (is_listing_for auth login) evs
  ∧ length (pages evs) = length evs
  ∧ calls w' = (calls w + length evs)%nat
  ∧ cache w' = cache w ∧ lastCall w' = lastCall w.
Proof.
  unfold getAllRepositories. intros H.
  pose proof (getAllRepositories_loop_trace _ _ _ _ _ _ _ _ _ _ H) as (Hc & _ & Hl & _).
  pose proof (quiet_getAllRepositories_loop _ _ _ _ _ _ _ _ _ _ H) as (Hcache & _).
  pose proof (keeps_lastCall_getAllRepositories_loop _ _ _ _ _ _ _ _ _ _ H) as Hlast.
  apply getAllRepositories_loop_Returned in H as (-> & Hp & _).
  repeat split; try done.
  clear -Hl. induction Hl as [| [t ev] evs Hev _ IH]; [done |].
  unfold is_listing_for in Hev. simpl in Hev.
  destruct ev as [| | | | | ? ? ? [|page] |]; try done.
  change (pages (?x :: evs)) with ((cursor, page) :: pages evs). simpl. by rewrite IH.
Qed.

Lemma getAllRepositories_Returned_witness :
  ∃ result w' evs,
    getAllRepositories Sample.env 5 "ghp_example" "octocat" (boot 1700000000000)
      = (Returned result, w', evs)
    ∧ result = listed evs
    ∧ length result = 3%nat ∧ length evs = 2%nat.
Proof.
  destruct (getAllRepositories Sample.env 5 "ghp_example" "octocat" (boot 1700000000000))
    as [[o w'] evs] eqn:H.
  assert (Ho : ∃ result, o = Returned result)
    by (vm_compute in H; injection H as <- _ _; eauto).
  destruct Ho as [result ->]. exists result, w', evs. split; [reflexivity |].
  split.
  - exact (proj1 (getAllRepositories_Returned Sample.env 5 "ghp_example" "octocat"
                    (boot 1700000000000) result w' evs H)).
  - vm_compute in H. injection H as <- <- <-. split; reflexivity.
Defined.

(** A failing page aborts the lister: the error thrown is the error of the
    last request of the trace, every request before it was answered, and no
    repository of the pages already fetched is returned. Cache and rate
    limiter are left alone. *)
Theorem getAllRepositories_Thrown env fuel auth login w e w' evs :
  getAllRepositories env fuel auth login w = (Thrown e, w', evs) →
  ∃ answered t cursor,
    evs = answered ++ [(t, QueryRepositories auth login cursor (inl e))]
    ∧ Forall (is_listing_for auth login) answered
    ∧ failures evs = [e]
    ∧ calls w' = (calls w + length evs)%nat
    ∧ cache w' = cache w ∧ lastCall w' = lastCall w.
Proof.
  unfold getAllRepositories. intros H.
  pose proof (getAllRepositories_loop_trace _ _ _ _ _ _ _ _ _ _ H)
    as (Hc & _ & answered & t & cursor & -> & Hl).
  pose proof (quiet_getAllRepositories_loop _ _ _ _ _ _ _ _ _ _ H) as (Hcache & _ & Hf).
  pose proof (keeps_lastCall_getAllRepositories_loop _ _ _ _ _ _ _ _ _ _ H) as Hlast.
  by exists answered, t, cursor.
Qed.

Lemma getAllRepositories_Thrown_witness :
  ∃ w' evs answered t cursor,
    getAllRepositories Sample.flaky 5 "ghp_example" "octocat" (boot 1700000000000)
      = (Thrown Sample.bad_gateway, w', evs)
    ∧ evs = answered
            ++ [(t, QueryRepositories "ghp_example" "octocat" cursor (inl Sample.bad_gateway))]
    ∧ length answered = 1%nat.
Proof.
  destruct (getAllRepositories Sample.flaky 5 "ghp_example" "octocat" (boot 1700000000000))
    as [[o w'] evs] eqn:H.
  assert (Ho : o = Thrown Sample.bad_gateway)
    by (vm_compute in H; injection H as <- _ _; reflexivity).
  subst o.
  destruct (getAllRepositories_Thrown Sample.flaky 5 "ghp_example" "octocat"
              (boot 1700000000000) Sample.bad_gateway w' evs H)
    as (answered & t & cursor & Hevs & _).
  exists w', evs, answered, t, cursor. split; [reflexivity |]. split; [exact Hevs |].
  vm_compute in H. injection H as _ <-.
  destruct answered as [| a [| b answered]]; [discriminate | reflexivity |].
  destruct answered; discriminate.
Defined.

(** ** The events of a run, in order *)

Lemma emits_only_bind {A B} P (m : M A) (k : A → M B) :
  emits_only P m → (∀ a, emits_only P (k a)) → emits_only P (bind m k).
Proof.
  intros Hm Hk w o w' evs H.
  apply bind_inv in H as [(a & w1 & e1 & e2 & H1 & H2 & ->) | [(e & H1 & ->) | (H1 & ->)]].
  - apply Forall_app. split; [by eapply Hm | by eapply Hk].
  - by eapply Hm.
  - by eapply Hm.
Qed.

Lemma emits_only_getAllRepositories_loop env P fuel auth login :
  (∀ t cursor response, P (t, QueryRepositories auth login cursor response)) →
  ∀ repositories cursor,
    emits_only P (getAllRepositories_loop env fuel auth login repositories cursor).
Proof.
  intros HP. induction fuel as [| fuel IH]; intros repositories cursor; simpl.
  - intros w o w' evs [= <- <- <-]. constructor.
  - apply emits_only_bind.
    + intros w o w' evs [= <- <- <-]. by repeat constructor.
    + intros user. destruct (PageInfo.hasNextPage _); [apply IH |].
      intros w o w' evs [= <- <- <-]. constructor.
Qed.

(** After the rate limiter, the [try] block sets no timer. *)
Lemma fetch_stats_timers env fuel accessToken w o w' evs :
  fetch_stats env fuel accessToken w = (o, w', evs) →
  timers evs =
    if clock w - lastCall w <? minInterval
    then [minInterval - (clock w - lastCall w)] else [].
Proof.
  unfold fetch_stats. intros H.
  apply bind_inv in H as [([] & wR & eR & e2 & HR & H & ->) | [(e & HR & _) | (HR & _)]];
    [| rewrite rateLimit_eq in HR; destruct (_ <? _); discriminate ..].
  assert (Hrest : Forall (fun ev => timer_of ev = None) e2).
  { revert H. generalize wR o w' e2.
    change (emits_only (fun ev => timer_of ev = None)
      (let* who1 := octokit_users_getAuthenticated env accessToken in
       let* user := query_contributions env accessToken (AuthenticatedUser.login who1) in
       let* who2 := octokit_users_getAuthenticated env accessToken in
       let* allRepositories :=
         getAllRepositories env fuel accessToken (AuthenticatedUser.login who2) in
       let* who3 := octokit_users_getAuthenticated env accessToken in
       let* who4 := octokit_users_getAuthenticated env accessToken in
       cache_set (cacheKey_of accessToken)
         (result_of (toLocaleDateString env) user allRepositories who3 who4);;
       ret (result_of (toLocaleDateString env) user allRepositories who3 who4))).
    apply emits_only_bind; [by intros ? ? ? ? [= <- <- <-]; repeat constructor | intros who1].
    apply emits_only_bind; [by intros ? ? ? ? [= <- <- <-]; repeat constructor | intros user].
    apply emits_only_bind; [by intros ? ? ? ? [= <- <- <-]; repeat constructor | intros who2].
    apply emits_only_bind;
      [by apply emits_only_getAllRepositories_loop | intros allRepositories].
    apply emits_only_bind; [by intros ? ? ? ? [= <- <- <-]; repeat constructor | intros who3].
    apply emits_only_bind; [by intros ? ? ? ? [= <- <- <-]; repeat constructor | intros who4].
    intros ? ? ? ? [= <- <- <-]. by repeat constructor. }
  assert (Hnone : timers e2 = []).
  { unfold timers. clear -Hrest. induction Hrest as [| ev evs Hev _ IH]; [done |].
    simpl. by rewrite Hev. }
  unfold timers in *. rewrite omap_app, Hnone, app_nil_r.
  rewrite rateLimit_eq in HR.
  destruct (clock w - lastCall w <? minInterval); by injection HR as <- <-.
Qed.

(** A call of [getGitHubStats] sets at most one timer. It sets none when
    [minInterval] has passed since the last-call timestamp, when the cache
    answers, and when the token is missing; otherwise it sleeps for what is
    left of the interval, which is never more than the interval itself unless
    the clock is behind the timestamp. *)
Theorem getGitHubStats_timers env fuel accessToken w o w' evs :
  getGitHubStats env fuel accessToken w = (o, w', evs) →
  (length (timers evs) ≤ 1)%nat
  ∧ Forall (fun ms => 0 < ms ∧ ms = minInterval - (clock w - lastCall w)
                      ∧ (lastCall w ≤ clock w → ms ≤ minInterval)) (timers evs)
  ∧ (minInterval ≤ clock w - lastCall w → timers evs = [])
  ∧ (timers evs ≠ [] → first_remote_call evs = Some (lastCall w')).
Proof.
  assert (Hnone : (length (timers []) ≤ 1)%nat
    ∧ Forall (fun ms => 0 < ms ∧ ms = minInterval - (clock w - lastCall w)
                        ∧ (lastCall w ≤ clock w → ms ≤ minInterval)) (timers [])
    ∧ (minInterval ≤ clock w - lastCall w → timers [] = [])
    ∧ (timers [] ≠ [] → first_remote_call [] = Some (lastCall w)))
    by (repeat split; [simpl; lia | constructor | intros Hn; by destruct Hn]).
  intros H. destruct accessToken as [| | accessToken];
    try (injection H as <- <- <-; exact Hnone).
  destruct (truthy accessToken) eqn:Ht;
    [| unfold getGitHubStats in H; rewrite Ht in H; injection H as <- <- <-;
       exact Hnone].
  destruct (cache_lookup (clock w) (cacheKey_of accessToken) (cache w)) as [entry |] eqn:Hl.
  { rewrite (getGitHubStats_hit _ _ _ _ _ Ht Hl) in H. injection H as <- <- <-.
    exact Hnone. }
  clear Hnone.
  rewrite getGitHubStats_miss, try_catch_rethrow in H by done.
  destruct (fetch_stats env fuel accessToken w) as [[o1 w1] evs1] eqn:Hf.
  pose proof (fetch_stats_timers _ _ _ _ _ _ _ Hf) as Htimers.
  pose proof (fetch_stats_start _ _ _ _ _ _ _ Hf) as [Hfirst _].
  assert (Hsame : timers evs = timers evs1 ∧ first_remote_call evs = first_remote_call evs1
                  ∧ lastCall w' = lastCall w1).
  { unfold first_remote_call, remote_calls, timers in *.
    destruct o1; injection H as <- <- <-; rewrite filter_cons; simpl; [done | | done].
    rewrite omap_app, filter_app. simpl. rewrite app_nil_r.
    destruct (filter is_remote_call evs1); [discriminate | done]. }
  destruct Hsame as (-> & -> & ->). rewrite Htimers.
  destruct (clock w - lastCall w <? minInterval) eqn:Hwait.
  - apply Z.ltb_lt in Hwait. unfold minInterval in *. repeat split.
    + done.
    + repeat constructor; lia.
    + lia.
    + done.
  - apply Z.ltb_ge in Hwait.
    repeat split; [simpl; lia | constructor | intros Hn; by destruct Hn].
Qed.

Lemma getGitHubStats_timers_witness :
  ∃ o w' evs,
    getGitHubStats Sample.flaky 5 (Token "ghp_example")
      {| clock := 1700000000380; lastCall := 1700000000000; cache := []; calls := 5 |}
      = (o, w', evs)
    ∧ timers evs = [620]
    ∧ (length (timers evs) ≤ 1)%nat.
Proof.
  destruct (getGitHubStats Sample.flaky 5 (Token "ghp_example")
              {| clock := 1700000000380; lastCall := 1700000000000;
                 cache := []; calls := 5 |}) as [[o w'] evs] eqn:H.
  exists o, w', evs. split; [reflexivity |]. split.
  - vm_compute in H. injection H as _ _ <-. reflexivity.
  - exact (proj1 (getGitHubStats_timers Sample.flaky 5 (Token "ghp_example") _ o w' evs H)).
Defined.

(** What [getGitHubStats] throws. Either the token is missing: the error is
    the missing-credential error, nothing is logged and nothing has happened.
    Or a remote call failed: the error is the error of that call, the only
    failure of the run, and the last event of the run is the [console.error]
    that logs it; the cache is as it was. *)
Theorem getGitHubStats_Thrown env fuel accessToken w e w' evs :
  getGitHubStats env fuel accessToken w = (Thrown e, w', evs) →
  (e = no_token ∧ evs = [] ∧ w' = w)
  ∨ (∃ evs', evs = evs' ++ [(clock w', ConsoleError e)]
             ∧ failures evs' = [e] ∧ cache w' = cache w).
Proof.
  intros H. destruct accessToken as [| | accessToken];
    try (injection H as <- <- <-; by left).
  destruct (truthy accessToken) eqn:Ht;
    [| unfold getGitHubStats in H; rewrite Ht in H; injection H as <- <- <-; by left].
  destruct (cache_lookup (clock w) (cacheKey_of accessToken) (cache w)) as [entry |] eqn:Hl.
  { rewrite (getGitHubStats_hit _ _ _ _ _ Ht Hl) in H. discriminate. }
  rewrite getGitHubStats_miss, try_catch_rethrow in H by done.
  destruct (fetch_stats env fuel accessToken w) as [[o1 w1] evs1] eqn:Hf.
  apply guarded_fetch_stats in Hf as [Hfail Hcache].
  destruct o1 as [r | e1 |]; try discriminate. injection H as <- <- <-.
  right. exists ((clock w, CacheGet (cacheKey_of accessToken) false) :: evs1).
  split; [done |]. rewrite failures_cons. simpl. split; [done |].
  by destruct Hcache as [-> _].
Qed.

Lemma getGitHubStats_Thrown_witness :
  ∃ w' evs evs',
    getGitHubStats Sample.flaky 5 (Token "ghp_example") (boot 1700000000000)
      = (Thrown Sample.bad_gateway, w', evs)
    ∧ evs = evs' ++ [(clock w', ConsoleError Sample.bad_gateway)]
    ∧ failures evs' = [Sample.bad_gateway].
Proof.
  destruct (getGitHubStats Sample.flaky 5 (Token "ghp_example") (boot 1700000000000))
    as [[o w'] evs] eqn:H.
  assert (Ho : o = Thrown Sample.bad_gateway)
    by (vm_compute in H; injection H as <- _ _; reflexivity).
  subst o.
  destruct (getGitHubStats_Thrown Sample.flaky 5 (Token "ghp_example")
              (boot 1700000000000) Sample.bad_gateway w' evs H)
    as [(Hno & _) | (evs' & Hevs & Hf & _)].
  - discriminate Hno.
  - exists w', evs, evs'. split; [reflexivity |]. split; [exact Hevs | exact Hf].
Defined.

Lemma getAuthenticated_Returned_world env auth w who w' evs :
  octokit_users_getAuthenticated env auth w = (Returned who, w', evs) →
  evs = [(clock w, GetAuthenticated auth (inr who))]
  ∧ calls w' = S (calls w).
Proof.
  unfold octokit_users_getAuthenticated, await_remote.
  destruct (users_getAuthenticated env (calls w) auth); intros [= <- <- <-]; done.
Qed.

Lemma query_contributions_Returned_world env auth login w user w' evs :
  query_contributions env auth login w = (Returned user, w', evs) →
  evs = [(clock w, QueryContributions auth login (inr user))]
  ∧ calls w' = S (calls w).
Proof.
  unfold query_contributions, await_remote.
  destruct (graphql_contributions env (calls w) auth login); intros [= <- <- <-]; done.
Qed.

(** The events of a returning run of the [try] block, one by one. *)
Lemma fetch_stats_shape env fuel accessToken w r w' evs :
  fetch_stats env fuel accessToken w = (Returned r, w', evs) →
  ∃ throttle who1 user who2 listing who3 who4 t1 t2 t3 t4 t5,
    evs = throttle
          ++ [ (t1, GetAuthenticated accessToken (inr who1));
               (t2, QueryContributions accessToken (AuthenticatedUser.login who1)
                      (inr user));
               (t3, GetAuthenticated accessToken (inr who2)) ]
          ++ listing
          ++ [ (t4, GetAuthenticated accessToken (inr who3));
               (t5, GetAuthenticated accessToken (inr who4));
               (clock w', CacheSet (cacheKey_of accessToken)) ]
    ∧ timers throttle = timers evs ∧ remote_calls throttle = []
    ∧ length throttle = length (timers throttle)
    ∧ Forall (is_listing_for accessToken (AuthenticatedUser.login who2)) listing
    ∧ listing ≠ []
    ∧ r = result_of (toLocaleDateString env) user (listed listing) who3 who4
    ∧ calls w' = (calls w + 5 + length listing)%nat.
Proof.
  intros H0. pose proof (fetch_stats_timers _ _ _ _ _ _ _ H0) as Htimers.
  revert H0. unfold fetch_stats, getAllRepositories. intros H.
  apply bind_Returned in H as ([] & w1 & e1 & ? & H1 & H & ->).
  assert (HR : calls w1 = calls w ∧ remote_calls e1 = []
               ∧ timers e1 = (if clock w - lastCall w <? minInterval
                              then [minInterval - (clock w - lastCall w)] else [])
               ∧ length e1 = length (timers e1)).
  { rewrite rateLimit_eq in H1.
    destruct (clock w - lastCall w <? minInterval); by injection H1 as <- <-. }
  destruct HR as (Hc1 & Hr1 & Ht1 & Hlen1).
  apply bind_Returned in H as (who1 & w2 & e2 & ? & H2 & H & ->).
  apply getAuthenticated_Returned_world in H2 as [-> Hc2].
  apply bind_Returned in H as (user & w3 & e3 & ? & H3 & H & ->).
  apply query_contributions_Returned_world in H3 as [-> Hc3].
  apply bind_Returned in H as (who2 & w4 & e4 & ? & H4 & H & ->).
  apply getAuthenticated_Returned_world in H4 as [-> Hc4].
  apply bind_Returned in H as (repos & w5 & e5 & ? & H5 & H & ->).
  pose proof (getAllRepositories_loop_trace _ _ _ _ _ _ _ _ _ _ H5) as (Hc5 & _ & Hl5 & Hpos5).
  apply getAllRepositories_loop_Returned in H5 as (Hr5 & _ & _).
  apply bind_Returned in H as (who3 & w6 & e6 & ? & H6 & H & ->).
  apply getAuthenticated_Returned_world in H6 as [-> Hc6].
  apply bind_Returned in H as (who4 & w7 & e7 & ? & H7 & H & ->).
  apply getAuthenticated_Returned_world in H7 as [-> Hc7].
  apply bind_Returned in H as ([] & w8 & e8 & ? & H8 & H & ->).
  rewrite cache_set_eq in H8. injection H8 as <- <-. injection H as <- <- <-.
  exists e1, who1, user, who2, e5, who3, who4,
    (clock w1), (clock w2), (clock w3), (clock w5), (clock w6).
  split; [done |].
  split; [by rewrite Htimers |]. split; [done |]. split; [done |]. split; [done |].
  split; [by intros ->; simpl in Hpos5; lia |].
  split; [by simpl in Hr5; subst repos |].
  simpl. lia.
Qed.

(** The order of a returning run that missed the cache: the cache lookup, at
    most one timer, the identity request, the contributions query for the
    login that request delivered, a second identity request, the listing
    requests for the login of the second, two more identity requests whose
    answers give the report's login and avatar, and last the cache write, at
    the instant the call returns. Every request carries the caller's token. *)
Theorem getGitHubStats_protocol env fuel accessToken w r w' evs :
  cache_lookup (clock w) (cacheKey_of accessToken) (cache w) = None →
  getGitHubStats env fuel (Token accessToken) w = (Returned r, w', evs) →
  ∃ throttle who1 user who2 listing who3 who4 t1 t2 t3 t4 t5,
    evs = [(clock w, CacheGet (cacheKey_of accessToken) false)]
          ++ throttle
          ++ [ (t1, GetAuthenticated accessToken (inr who1));
               (t2, QueryContributions accessToken (AuthenticatedUser.login who1)
                      (inr user));
               (t3, GetAuthenticated accessToken (inr who2)) ]
          ++ listing
          ++ [ (t4, GetAuthenticated accessToken (inr who3));
               (t5, GetAuthenticated accessToken (inr who4));
               (clock w', CacheSet (cacheKey_of accessToken)) ]
    ∧ length throttle = length (timers evs)
    ∧ Forall (is_listing_for accessToken (AuthenticatedUser.login who2)) listing
    ∧ Report.user r = {| ReportUser.login := AuthenticatedUser.login who3;
                         ReportUser.avatarUrl := AuthenticatedUser.avatar_url who4 |}.
Proof.
  intros Hl H. apply getGitHubStats_miss_Returned in H as (evs' & -> & H); [| done].
  apply fetch_stats_shape in H
    as (throttle & who1 & user & who2 & listing & who3 & who4 & t1 & t2 & t3 & t4 & t5 & H).
  destruct H as (-> & Ht & _ & Hlen & Hlisting & _ & -> & _).
  exists throttle, who1, user, who2, listing, who3, who4, t1, t2, t3, t4, t5.
  split; [done |]. split; [by rewrite Hlen, Ht |]. split; [done |].
  unfold result_of. by destruct (visit_calendar _ _).
Qed.

Lemma getGitHubStats_protocol_witness :
  ∃ r w' evs,
    getGitHubStats Sample.env 5 (Token "ghp_example") (boot 1700000000000)
      = (Returned r, w', evs)
    ∧ head evs = Some (1700000000000, CacheGet (cacheKey_of "ghp_example") false)
    ∧ last evs = Some (clock w', CacheSet (cacheKey_of "ghp_example")).
Proof.
  destruct (getGitHubStats Sample.env 5 (Token "ghp_example") (boot 1700000000000))
    as [[o w'] evs] eqn:H.
  assert (Ho : ∃ r, o = Returned r) by (vm_compute in H; injection H as <- _ _; eauto).
  destruct Ho as [r ->].
  destruct (getGitHubStats_protocol Sample.env 5 "ghp_example" (boot 1700000000000)
              r w' evs eq_refl H)
    as (throttle & who1 & user & who2 & listing & who3 & who4 & t1 & t2 & t3 & t4 & t5
        & Hevs & _).
  exists r, w', evs. split; [reflexivity |]. rewrite Hevs. split; [reflexivity |].
  rewrite !last_app. reflexivity.
Defined.

(** A returning run that missed the cache made five remote calls besides the
    listing, one listing request per page, and at least one of those. *)
Theorem getGitHubStats_remote_call_count env fuel accessToken w r w' evs :
  cache_lookup (clock w) (cacheKey_of accessToken) (cache w) = None →
  getGitHubStats env fuel (Token accessToken) w = (Returned r, w', evs) →
  length (remote_calls evs) = (5 + length (pages evs))%nat
  ∧ (0 < length (pages evs))%nat
  ∧ calls w' = (calls w + length (remote_calls evs))%nat.
Proof.
  intros Hl H. apply getGitHubStats_miss_Returned in H as (evs' & -> & H); [| done].
  apply fetch_stats_shape in H
    as (throttle & who1 & user & who2 & listing & who3 & who4 & t1 & t2 & t3 & t4 & t5 & H).
  destruct H as (Hevs & _ & Hthrottle & _ & Hlisting & Hne & _ & Hcalls).
  assert (Hpages : pages throttle = []).
  { clear -Hthrottle. unfold remote_calls, pages in *.
    induction throttle as [| [t ev] throttle IH]; [done |].
    rewrite filter_cons in Hthrottle.
    destruct ev as [| | | | | ? ? ? [] |]; simpl in *; try discriminate; auto. }
  assert (Hl2 : remote_calls listing = listing ∧ length (pages listing) = length listing).
  { clear -Hlisting. unfold remote_calls.
    induction Hlisting as [| [t ev] listing Hev _ [IH1 IH2]]; [done |].
    unfold is_listing_for in Hev. simpl in Hev.
    destruct ev as [| | | | | ? ? ? [| page] |]; try done.
    rewrite filter_cons. simpl. rewrite IH1.
    change (pages (?x :: listing)) with ((cursor, page) :: pages listing).
    simpl. by rewrite IH2. }
  destruct Hl2 as [Hrl Hpl].
  match type of Hevs with
  | _ = _ ++ ?pre ++ _ ++ ?post =>
      assert (Hpre : pages pre = [] ∧ length (remote_calls pre) = 3%nat) by done;
      assert (Hpost : pages post = [] ∧ length (remote_calls post) = 2%nat) by done;
      generalize dependent pre; generalize dependent post
  end.
  intros post [Hpost1 Hpost2] pre Hevs [Hpre1 Hpre2]. subst evs'.
  change (remote_calls (?x :: ?l)) with (remote_calls l).
  change (pages (?x :: ?l)) with (pages l).
  rewrite !remote_calls_app, !pages_app, !length_app.
  rewrite Hthrottle, Hpages, Hrl, Hpl, Hpre1, Hpre2, Hpost1, Hpost2.
  destruct listing; [done |]. simpl in *. repeat split; lia.
Qed.

Lemma getGitHubStats_remote_call_count_witness :
  ∃ r w' evs,
    getGitHubStats Sample.env 5 (Token "ghp_example") (boot 1700000000000)
      = (Returned r, w', evs)
    ∧ length (remote_calls evs) = (5 + length (pages evs))%nat
    ∧ length (remote_calls evs) = 7%nat.
Proof.
  destruct (getGitHubStats Sample.env 5 (Token "ghp_example") (boot 1700000000000))
    as [[o w'] evs] eqn:H.
  assert (Ho : ∃ r, o = Returned r) by (vm_compute in H; injection H as <- _ _; eauto).
  destruct Ho as [r ->]. exists r, w', evs. split; [reflexivity |]. split.
  - exact (proj1 (getGitHubStats_remote_call_count Sample.env 5 "ghp_example"
                    (boot 1700000000000) r w' evs eq_refl H)).
  - vm_compute in H. injection H as _ _ <-. reflexivity.
Defined.

(** ** Ties in the repository list *)

Lemma sort_insert_stable c a l :
  filter (fun s => RepoStats.commits s = c) (sort_insert by_commits_desc a l)
  = filter (fun s => RepoStats.commits s = c) (a :: l).
Proof.
  induction l as [| b l IH]; [done |].
  change (sort_insert by_commits_desc a (b :: l))
    with (if is_positive (by_commits_desc a b)
          then b :: sort_insert by_commits_desc a l else a :: b :: l).
  rewrite by_commits_desc_positive.
  destruct (RepoStats.commits a <? RepoStats.commits b)%N eqn:Hlt; [| done].
  apply N.ltb_lt in Hlt.
  rewrite (filter_cons _ b), IH, !filter_cons.
  destruct (decide (RepoStats.commits b = c)), (decide (RepoStats.commits a = c));
    try done; lia.
Qed.

(** Sorting the repositories by commits is stable: the repositories with any
    given commit count stand in the report in the order in which the lister
    delivered them. *)
Theorem result_of_repos_stable tz user repos who who' c :
  filter (fun s => RepoStats.commits s = c)
    (Report.repos (result_of tz user repos who who'))
  = filter (fun s => RepoStats.commits s = c) (map repoStat repos).
Proof.
  rewrite result_of_repos. induction (map repoStat repos) as [| a l IH]; [done |].
  simpl. by rewrite sort_insert_stable, !filter_cons, IH.
Qed.

(** ** The weekday table, bucket by bucket *)

Lemma visit_days_bucket tz name days :
  ∀ acc,
    or0 ((fold_left (visit_day tz) days acc).1 !! name)
    = (or0 (acc.1 !! name) + bucket_total tz name days)%N.
Proof.
  unfold bucket_total.
  induction days as [| day days IH]; intros acc; simpl; [lia |].
  rewrite IH, filter_cons. destruct acc as [table active]. unfold visit_day.
  destruct (0 <? ContributionDay.contributionCount day)%N eqn:Hpos; simpl.
  - destruct (decide (tz (ContributionDay.date day) = name)) as [<- | Hne]; simpl.
    + rewrite lookup_insert_eq. simpl. lia.
    + by rewrite lookup_insert_ne.
  - apply N.ltb_ge in Hpos.
    destruct (decide (tz (ContributionDay.date day) = name)); simpl; lia.
Qed.

Lemma bucket_total_app tz name l1 l2 :
  bucket_total tz name (l1 ++ l2)
  = (bucket_total tz name l1 + bucket_total tz name l2)%N.
Proof. unfold bucket_total. by rewrite filter_app, map_app, sum_N_app. Qed.

Lemma visit_weeks_bucket tz name weeks :
  ∀ acc,
    or0 ((fold_left (visit_week tz) weeks acc).1 !! name)
    = (or0 (acc.1 !! name)
       + bucket_total tz name (flat_map Week.contributionDays weeks))%N.
Proof.
  induction weeks as [| week weeks IH]; intros acc; simpl.
  - unfold bucket_total. simpl. lia.
  - rewrite IH. unfold visit_week at 1. rewrite visit_days_bucket, bucket_total_app. lia.
Qed.

(** Each of the seven weekday counts of an assembled report is the sum of the
    contributions of the calendar days that the host names by that weekday;
    days the host names otherwise are counted in no bucket. *)
Theorem result_of_contributionsByDay_buckets tz user repos who who' :
  Report.contributionsByDay (result_of tz user repos who who')
  = map (fun name => DayCount.mk name (bucket_total tz name (calendar_days user)))
      daysOrder.
Proof.
  rewrite result_of_contributionsByDay. unfold contributionsByDay_of.
  apply map_ext. intros name. f_equal.
  unfold visit_calendar, calendar_days. rewrite visit_weeks_bucket. simpl.
  by rewrite lookup_empty.
Qed.

(** ** Active days *)

Lemma visit_days_active tz days :
  ∀ acc,
    (fold_left (visit_day tz) days acc).2
    = list_to_set (active_dates days) ∪ acc.2.
Proof.
  unfold active_dates.
  induction days as [| day days IH]; intros acc; simpl.
  - by rewrite (left_id_L ∅ (∪)).
  - rewrite IH, filter_cons. destruct acc as [table active]. unfold visit_day.
    destruct (0 <? ContributionDay.contributionCount day)%N eqn:Hpos; simpl; [| done].
    rewrite (assoc_L (∪)). f_equal. apply (comm_L (∪)).
Qed.

Lemma visit_weeks_active tz weeks :
  ∀ acc,
    (fold_left (visit_week tz) weeks acc).2
    = list_to_set (active_dates (flat_map Week.contributionDays weeks)) ∪ acc.2.
Proof.
  induction weeks as [| week weeks IH]; intros acc; simpl.
  - unfold active_dates. simpl. by rewrite (left_id_L ∅ (∪)).
  - rewrite IH. unfold visit_week at 1. rewrite visit_days_active.
    unfold active_dates. rewrite filter_app, map_app, list_to_set_app_L.
    rewrite (assoc_L (∪)). f_equal. apply (comm_L (∪)).
Qed.

Lemma size_list_to_set_le (l : list string) :
  (size (list_to_set l : gset string) ≤ length l)%nat.
Proof.
  induction l as [| x l IH].
  - change (size (∅ : gset string) ≤ 0)%nat. by rewrite size_empty.
  - rewrite list_to_set_cons, size_union_alt, size_singleton. simpl.
    assert (size (list_to_set l ∖ {[x]} : gset string) ≤ size (list_to_set l : gset string))%nat
      by (apply subseteq_size, subseteq_difference_l; done).
    lia.
Qed.

(** [activeDays] is the number of distinct dates among the calendar days with
    at least one contribution: a day without contributions is never counted,
    a date delivered twice is counted once, and with pairwise distinct dates
    [activeDays] is the number of days with contributions. *)
Theorem result_of_activeDays tz user repos who who' :
  Report.activeDays (result_of tz user repos who who')
  = N.of_nat (size (list_to_set (active_dates (calendar_days user)) : gset string))
  ∧ (Report.activeDays (result_of tz user repos who who')
     ≤ N.of_nat (length (active_dates (calendar_days user))))%N
  ∧ (NoDup (active_dates (calendar_days user)) →
     Report.activeDays (result_of tz user repos who who')
     = N.of_nat (length (active_dates (calendar_days user)))).
Proof.
  assert (Hactive : Report.activeDays (result_of tz user repos who who')
    = N.of_nat (size (list_to_set (active_dates (calendar_days user)) : gset string))).
  { unfold result_of.
    pose proof (visit_weeks_active tz (ContributionsCollection.weeks user) (∅, ∅)) as H.
    unfold visit_calendar. destruct (fold_left _ _ _) as [table active]. simpl in *.
    rewrite H. by rewrite (right_id_L ∅ (∪)). }
  rewrite Hactive. split; [done |]. split.
  - pose proof (size_list_to_set_le (active_dates (calendar_days user))). lia.
  - intros Hnd. by rewrite size_list_to_set.
Qed.

(** ** The language table, key by key *)

Lemma obj_get_set_eq k v o : obj_get k (obj_set k v o) = Some v.
Proof.
  induction o as [| [k' v'] o IH]; simpl.
  - by rewrite String.eqb_refl.
  - destruct (String.eqb k k') eqn:Hk; simpl; [by rewrite String.eqb_refl |].
    by rewrite Hk.
Qed.

Lemma obj_get_set_ne k k' v o : k ≠ k' → obj_get k (obj_set k' v o) = obj_get k o.
Proof.
  intros Hne. apply String.eqb_neq in Hne.
  induction o as [| [k2 v2] o IH]; simpl.
  - by rewrite Hne.
  - destruct (String.eqb k' k2) eqn:Hk; simpl.
    + apply String.eqb_eq in Hk as <-. by rewrite Hne.
    + by rewrite IH.
Qed.

Lemma obj_set_keys k v o x :
  In x (map fst (obj_set k v o)) ↔ x = k ∨ In x (map fst o).
Proof.
  induction o as [| [k2 v2] o IH]; simpl; [naive_solver |].
  destruct (String.eqb k k2) eqn:Hk; simpl.
  - apply String.eqb_eq in Hk as <-. naive_solver.
  - rewrite IH. naive_solver.
Qed.

Lemma obj_set_NoDup k v o : NoDup (map fst o) → NoDup (map fst (obj_set k v o)).
Proof.
  induction o as [| [k2 v2] o IH]; simpl; intros Hnd.
  - apply NoDup_singleton.
  - apply NoDup_cons in Hnd as [Hk2 Hnd].
    destruct (String.eqb k k2) eqn:Hk; simpl.
    + apply String.eqb_eq in Hk as <-. by apply NoDup_cons.
    + apply String.eqb_neq in Hk. apply NoDup_cons. split; [| by apply IH].
      rewrite list_elem_of_In, obj_set_keys. rewrite list_elem_of_In in Hk2.
      naive_solver.
Qed.

Lemma obj_get_In k v o : NoDup (map fst o) → In (k, v) o → obj_get k o = Some v.
Proof.
  induction o as [| [k2 v2] o IH]; simpl; [done |].
  intros Hnd Hin. apply NoDup_cons in Hnd as [Hk2 Hnd].
  destruct Hin as [[= -> ->] | Hin]; [by rewrite String.eqb_refl |].
  destruct (String.eqb k k2) eqn:Hk; [| by apply IH].
  apply String.eqb_eq in Hk as <-. destruct Hk2.
  apply list_elem_of_In, (in_map fst _ _ Hin).
Qed.

Lemma speaks_language k repo :
  speaks k repo = true ↔ RepoStats.language repo = Some k ∧ truthy k = true.
Proof.
  unfold speaks. destruct (RepoStats.language repo) as [l |]; [| naive_solver].
  destruct (String.eqb k l) eqn:Hk; simpl.
  - apply String.eqb_eq in Hk as <-. naive_solver.
  - apply String.eqb_neq in Hk. naive_solver.
Qed.

Lemma count_language_get k languageStats repo :
  or0 (obj_get k (count_language languageStats repo))
  = (or0 (obj_get k languageStats)
     + (if speaks k repo then RepoStats.commits repo else 0))%N.
Proof.
  unfold count_language, speaks.
  destruct (RepoStats.language repo) as [l |]; [| lia].
  destruct (truthy l); [| rewrite andb_false_r; lia].
  rewrite andb_true_r. destruct (String.eqb k l) eqn:Hk.
  - apply String.eqb_eq in Hk as <-. by rewrite obj_get_set_eq.
  - apply String.eqb_neq in Hk. rewrite obj_get_set_ne by done. lia.
Qed.

Lemma fold_count_language_get k repoStats :
  ∀ acc,
    or0 (obj_get k (fold_left count_language repoStats acc))
    = (or0 (obj_get k acc) + commits_in k repoStats)%N.
Proof.
  unfold commits_in.
  induction repoStats as [| repo repoStats IH]; intros acc; simpl; [lia |].
  rewrite IH, count_language_get, filter_cons.
  destruct (speaks k repo); simpl; lia.
Qed.

Lemma count_language_keys languageStats repo x :
  In x (map fst (count_language languageStats repo))
  ↔ speaks x repo = true ∨ In x (map fst languageStats).
Proof.
  rewrite speaks_language. unfold count_language.
  destruct (RepoStats.language repo) as [l |];
    [| split; [by right | by intros [[[=] _] | Hx]]].
  destruct (truthy l) eqn:Hl.
  - rewrite obj_set_keys. split.
    + intros [-> | Hx]; [by left | by right].
    + intros [[[= ->] _] | Hx]; [by left | by right].
  - split; [by right |]. intros [[[= ->] Ht] | Hx]; [congruence | done].
Qed.

Lemma fold_count_language_keys repoStats x :
  ∀ acc,
    In x (map fst (fold_left count_language repoStats acc))
    ↔ (∃ repo, In repo repoStats ∧ speaks x repo = true) ∨ In x (map fst acc).
Proof.
  induction repoStats as [| repo repoStats IH]; intros acc; simpl.
  - split; [by right | by intros [(repo & [] & _) | Hx]].
  - rewrite IH, count_language_keys. split.
    + intros [(r & Hr & Hs) | [Hs | Hx]];
        [left; exists r; auto | left; exists repo; auto | by right].
    + intros [(r & [<- | Hr] & Hs) | Hx];
        [right; by left | left; by exists r | right; by right].
Qed.

Lemma fold_count_language_NoDup repoStats :
  ∀ acc, NoDup (map fst acc) → NoDup (map fst (fold_left count_language repoStats acc)).
Proof.
  induction repoStats as [| repo repoStats IH]; intros acc Hnd; simpl; [done |].
  apply IH. unfold count_language.
  destruct (RepoStats.language repo) as [l |]; [| done].
  destruct (truthy l); [by apply obj_set_NoDup | done].
Qed.

(** When no detected language of the listed repositories bears a name that a
    plain object inherits ([Object_prototype_keys]), the language list of an
    assembled report names each detected language exactly once and nothing
    else, and the share of a language is the commits of the repositories in
    that language, divided by the commits of all repositories with a detected
    language, times 100. *)
Theorem result_of_languages_shares tz user repos who who' :
  plain_languages repos = true →
  NoDup (map LanguageShare.name (Report.languages (result_of tz user repos who who')))
  ∧ (∀ language,
       In language (map LanguageShare.name
                      (Report.languages (result_of tz user repos who who')))
       ↔ ∃ repo, In repo repos ∧ language_of repo = Some language)
  ∧ ∀ s, In s (Report.languages (result_of tz user repos who who')) →
      LanguageShare.percentage s
      = number_mul
          (number_div (commits_in (LanguageShare.name s) (map repoStat repos))
             (language_commits (map repoStat repos)))
          (of_N 100).
Proof.
  intros _. rewrite result_of_languages. unfold languages_of.
  rewrite languageStats_of_sum.
  set (repoStats := map repoStat repos).
  set (total := language_commits repoStats).
  set (cmp := fun a b => number_sub (LanguageShare.percentage b) (LanguageShare.percentage a)).
  assert (Hnd : NoDup (map fst (languageStats_of repoStats)))
    by (apply fold_count_language_NoDup; constructor).
  assert (Hnames : map LanguageShare.name (Array_sort cmp (map (share total)
                     (languageStats_of repoStats)))
                   ≡ₚ map fst (languageStats_of repoStats)).
  { rewrite Array_sort_perm. by rewrite <- list_fmap_compose. }
  split; [by rewrite Hnames |]. split.
  - intros language. rewrite <- !list_elem_of_In, Hnames, list_elem_of_In.
    unfold languageStats_of. rewrite fold_count_language_keys. simpl.
    split.
    + intros [(s & Hs & Hsp) | []]. apply speaks_language in Hsp as [Hlang Ht].
      unfold repoStats in Hs. apply in_map_iff in Hs as (repo & <- & Hrepo).
      by exists repo.
    + intros (repo & Hrepo & Hlang). left. exists (repoStat repo).
      split; [by apply in_map |]. apply speaks_language. split; [done |].
      simpl in *. unfold language_of in Hlang.
      destruct (Repository.primaryLanguage repo) as [l |]; [| done].
      destruct (truthy (Language.name l)) eqn:Ht; [| done]. by injection Hlang as <-.
  - intros s Hs. apply list_elem_of_In in Hs. rewrite Array_sort_perm in Hs.
    apply list_elem_of_fmap in Hs as ([k c] & -> & Hkc). simpl.
    apply list_elem_of_In in Hkc.
    pose proof (obj_get_In _ _ _ Hnd Hkc) as Hget.
    pose proof (fold_count_language_get k repoStats []) as Hsum.
    fold (languageStats_of repoStats) in Hsum. rewrite Hget in Hsum. simpl in Hsum.
    by rewrite Hsum.
Qed.

Lemma result_of_languages_shares_witness :
  plain_languages (RepositoryConnection.nodes Sample.page1) = true
  ∧ map LanguageShare.name
      (Report.languages
         (result_of Sample.weekday_name Sample.collection
            (RepositoryConnection.nodes Sample.page1) Sample.octocat Sample.octocat))
    = ["Go"; "TypeScript"]
  ∧ ∀ s,
      In s (Report.languages
              (result_of Sample.weekday_name Sample.collection
                 (RepositoryConnection.nodes Sample.page1) Sample.octocat Sample.octocat)) →
      LanguageShare.percentage s
      = number_mul
          (number_div
             (commits_in (LanguageShare.name s)
                (map repoStat (RepositoryConnection.nodes Sample.page1)))
             (language_commits (map repoStat (RepositoryConnection.nodes Sample.page1))))
          (of_N 100).
Proof.
  split; [reflexivity |]. split; [reflexivity |].
  apply (result_of_languages_shares Sample.weekday_name Sample.collection
           (RepositoryConnection.nodes Sample.page1) Sample.octocat Sample.octocat).
  reflexivity.
Defined.

(** ** Order of the language list *)

Lemma percentage_compare_positive a b :
  is_positive (number_sub (Finite b) (Finite a)) = true ↔ (a < b)%Q.
Proof.
  unfold number_sub, number_add, number_opp, is_positive, Qlt.
  rewrite Z.ltb_lt. destruct a as [an ad], b as [bn bd]. simpl. lia.
Qed.

Lemma sort_insert_shares_descending a l :
  Forall (fun s => ∃ q, LanguageShare.percentage s = Finite q) (a :: l) →
  StronglySorted (fun x y => (finite_part (LanguageShare.percentage y)
                              <= finite_part (LanguageShare.percentage x))%Q) l →
  StronglySorted (fun x y => (finite_part (LanguageShare.percentage y)
                              <= finite_part (LanguageShare.percentage x))%Q)
    (sort_insert
       (fun a b => number_sub (LanguageShare.percentage b) (LanguageShare.percentage a))
       a l).
Proof.
  intros Hfin Hsorted. apply Forall_cons in Hfin as [[qa Ha] Hfin].
  induction Hsorted as [| b l Hl IH Hb]; simpl.
  - repeat constructor.
  - apply Forall_cons in Hfin as [[qb Hb'] Hfin]. rewrite Ha, Hb'.
    destruct (is_positive (number_sub (Finite qb) (Finite qa))) eqn:Hpos.
    + apply percentage_compare_positive in Hpos. constructor; [by apply IH |].
      rewrite sort_insert_perm. constructor; [| done].
      rewrite Ha, Hb'. simpl. by apply Qlt_le_weak.
    + assert (Hle : (qb <= qa)%Q).
      { apply Qnot_lt_le. intros Hlt. apply percentage_compare_positive in Hlt.
        congruence. }
      constructor; [by constructor |]. constructor; [by rewrite Ha, Hb' |].
      eapply Forall_impl; [exact Hb |]. simpl. intros s Hs.
      rewrite Ha. rewrite Hb' in Hs. simpl in *. by eapply Qle_trans.
Qed.

(** When no detected language bears a name that a plain object inherits
    ([Object_prototype_keys]) and the repositories with a detected language
    have at least one commit between them, every share of the language list
    is a finite number and the list is in descending order of share. *)
Theorem result_of_languages_descending tz user repos who who' :
  plain_languages repos = true →
  (0 < language_commits (map repoStat repos))%N →
  Forall (fun s => ∃ q, LanguageShare.percentage s = Finite q)
    (Report.languages (result_of tz user repos who who'))
  ∧ StronglySorted (fun x y => (finite_part (LanguageShare.percentage y)
                                <= finite_part (LanguageShare.percentage x))%Q)
      (Report.languages (result_of tz user repos who who')).
Proof.
  intros _ Hpos. rewrite result_of_languages. unfold languages_of.
  rewrite languageStats_of_sum.
  destruct (language_commits (map repoStat repos)) as [| p]; [lia |].
  assert (Hfin : Forall (fun s => ∃ q, LanguageShare.percentage s = Finite q)
                   (map (share (N.pos p)) (languageStats_of (map repoStat repos)))).
  { apply Forall_forall. intros s Hs.
    apply list_elem_of_fmap in Hs as (entry & -> & _). by eexists. }
  split; [by rewrite Array_sort_perm |].
  induction Hfin as [| a l Ha Hl IH]; simpl; [constructor |].
  apply sort_insert_shares_descending; [| done].
  constructor; [done |]. by rewrite Array_sort_perm.
Qed.

Lemma result_of_languages_descending_witness :
  plain_languages (RepositoryConnection.nodes Sample.page1) = true
  ∧ Forall (fun s => ∃ q, LanguageShare.percentage s = Finite q)
    (Report.languages
       (result_of Sample.weekday_name Sample.collection
          (RepositoryConnection.nodes Sample.page1) Sample.octocat Sample.octocat))
  ∧ map LanguageShare.name
      (Report.languages
         (result_of Sample.weekday_name Sample.collection
            (RepositoryConnection.nodes Sample.page1) Sample.octocat Sample.octocat))
    = ["Go"; "TypeScript"].
Proof.
  split; [reflexivity |]. split.
  - apply (result_of_languages_descending Sample.weekday_name Sample.collection
             (RepositoryConnection.nodes Sample.page1) Sample.octocat Sample.octocat);
      reflexivity.
  - reflexivity.
Defined.

(** ** Cache misses *)

(** A call with a token that finds no live entry under its key looks the key
    up, goes through the rate limiter and starts a remote call, whatever
    happens afterwards. *)
Lemma getGitHubStats_miss_start env fuel accessToken w o w' evs :
  truthy accessToken = true →
  cache_lookup (clock w) (cacheKey_of accessToken) (cache w) = None →
  getGitHubStats env fuel (Token accessToken) w = (o, w', evs) →
  head evs = Some (clock w, CacheGet (cacheKey_of accessToken) false)
  ∧ first_remote_call evs = Some (lastCall w').
Proof.
  intros Ht Hl H. rewrite getGitHubStats_miss, try_catch_rethrow in H by done.
  destruct (fetch_stats env fuel accessToken w) as [[o1 w1] evs1] eqn:Hf.
  apply fetch_stats_start in Hf as [Hfirst _].
  unfold first_remote_call, remote_calls in *.
  destruct o1; injection H as <- <- <-; (split; [done |]); rewrite filter_cons; simpl;
    [done | | done].
  rewrite filter_app. by destruct (filter is_remote_call evs1).
Qed.

Lemma cache_lookup_None_later now now' key c :
  cache_lookup now key c = None → now ≤ now' → cache_lookup now' key c = None.
Proof.
  unfold cache_lookup, is_stale. destruct (find (has_key key) c) as [e |]; [| done].
  destruct (ttl <? now - CacheEntry.start e) eqn:Hs; [| done].
  intros _ Hle. apply Z.ltb_lt in Hs.
  destruct (ttl <? now' - CacheEntry.start e) eqn:Hs'; [done |].
  apply Z.ltb_ge in Hs'. lia.
Qed.

(** Errors are not cached. After a call with a token has thrown, a later call
    for the same token, made with the cache as the failed call left it, misses
    the cache again and starts a remote call. *)
Theorem getGitHubStats_retry_after_failure env1 fuel1 accessToken w e w1 evs1
    env2 fuel2 w2 o2 w2' evs2 :
  truthy accessToken = true →
  getGitHubStats env1 fuel1 (Token accessToken) w = (Thrown e, w1, evs1) →
  cache w2 = cache w1 → clock w ≤ clock w2 →
  getGitHubStats env2 fuel2 (Token accessToken) w2 = (o2, w2', evs2) →
  head evs2 = Some (clock w2, CacheGet (cacheKey_of accessToken) false)
  ∧ first_remote_call evs2 = Some (lastCall w2').
Proof.
  intros Ht H1 Hcache Hclock H2.
  destruct (cache_lookup (clock w) (cacheKey_of accessToken) (cache w)) as [entry |] eqn:Hl.
  { rewrite (getGitHubStats_hit _ _ _ _ _ Ht Hl) in H1. discriminate. }
  assert (Hsame : cache w1 = cache w).
  { rewrite getGitHubStats_miss, try_catch_rethrow in H1 by done.
    destruct (fetch_stats env1 fuel1 accessToken w) as [[o1 w1'] evs1'] eqn:Hf.
    apply guarded_fetch_stats in Hf as [_ Hkeep].
    destruct o1; try discriminate. injection H1 as _ <- _.
    by destruct Hkeep as [-> _]. }
  eapply getGitHubStats_miss_start; [done | | exact H2].
  rewrite Hcache, Hsame. by eapply cache_lookup_None_later.
Qed.

Lemma getGitHubStats_retry_after_failure_witness :
  ∃ w1 evs1 o2 w2' evs2,
    getGitHubStats Sample.flaky 5 (Token "ghp_example") (boot 1700000000000)
      = (Thrown Sample.bad_gateway, w1, evs1)
    ∧ getGitHubStats Sample.env 5 (Token "ghp_example") (advance 5000 w1) = (o2, w2', evs2)
    ∧ head evs2 = Some (clock (advance 5000 w1), CacheGet (cacheKey_of "ghp_example") false)
    ∧ first_remote_call evs2 = Some (lastCall w2').
Proof.
  destruct (getGitHubStats Sample.flaky 5 (Token "ghp_example") (boot 1700000000000))
    as [[o1 w1] evs1] eqn:H1.
  assert (Ho : o1 = Thrown Sample.bad_gateway)
    by (vm_compute in H1; injection H1 as <- _ _; reflexivity).
  subst o1.
  destruct (getGitHubStats Sample.env 5 (Token "ghp_example") (advance 5000 w1))
    as [[o2 w2'] evs2] eqn:H2.
  exists w1, evs1, o2, w2', evs2. split; [reflexivity |]. split; [exact H2 |].
  refine (getGitHubStats_retry_after_failure Sample.flaky 5 "ghp_example"
            (boot 1700000000000) Sample.bad_gateway w1 evs1
            Sample.env 5 (advance 5000 w1) o2 w2' evs2 eq_refl H1 eq_refl _ H2).
  vm_compute in H1. injection H1 as <- _. vm_compute. discriminate.
Defined.

(** An entry older than the time to live is not served: the call misses the
    cache and starts a remote call. *)
Theorem getGitHubStats_expired_entry env fuel accessToken w entry o w' evs :
  truthy accessToken = true →
  find (has_key (cacheKey_of accessToken)) (cache w) = Some entry →
  ttl < clock w - CacheEntry.start entry →
  getGitHubStats env fuel (Token accessToken) w = (o, w', evs) →
  head evs = Some (clock w, CacheGet (cacheKey_of accessToken) false)
  ∧ first_remote_call evs = Some (lastCall w').
Proof.
  intros Ht Hfind Hold H. eapply getGitHubStats_miss_start; [done | | exact H].
  unfold cache_lookup, is_stale. rewrite Hfind.
  destruct (ttl <? clock w - CacheEntry.start entry) eqn:Hs; [done |].
  apply Z.ltb_ge in Hs. lia.
Qed.

Lemma getGitHubStats_expired_entry_witness :
  ∃ r w1 evs1 o2 w2' evs2,
    getGitHubStats Sample.env 5 (Token "ghp_example") (boot 1700000000000)
      = (Returned r, w1, evs1)
    ∧ getGitHubStats Sample.env 5 (Token "ghp_example") (advance 300001 w1)
      = (o2, w2', evs2)
    ∧ head evs2
      = Some (clock (advance 300001 w1), CacheGet (cacheKey_of "ghp_example") false).
Proof.
  destruct (getGitHubStats Sample.env 5 (Token "ghp_example") (boot 1700000000000))
    as [[o1 w1] evs1] eqn:H1.
  assert (Hw : ∃ r, o1 = Returned r ∧ ∃ entry,
             find (has_key (cacheKey_of "ghp_example")) (cache (advance 300001 w1))
               = Some entry
             ∧ ttl < clock (advance 300001 w1) - CacheEntry.start entry).
  { vm_compute in H1. injection H1 as <- <- _. eexists. split; [reflexivity |].
    eexists. split; [reflexivity |]. reflexivity. }
  destruct Hw as (r & -> & entry & Hfind & Hold).
  destruct (getGitHubStats Sample.env 5 (Token "ghp_example") (advance 300001 w1))
    as [[o2 w2'] evs2] eqn:H2.
  exists r, w1, evs1, o2, w2', evs2. split; [reflexivity |]. split; [exact H2 |].
  exact (proj1 (getGitHubStats_expired_entry Sample.env 5 "ghp_example"
                  (advance 300001 w1) entry o2 w2' evs2 eq_refl Hfind Hold H2)).
Defined.

(** ** One key per token *)

Lemma cacheKey_of_inj a b : cacheKey_of a = cacheKey_of b → a = b.
Proof. unfold cacheKey_of. intros H. cbv in H. by injection H. Qed.

(** Reports never cross tokens through the cache: when every entry of the
    cache is stored under the key of some other token, a call misses the
    cache. *)
Theorem getGitHubStats_other_tokens env fuel accessToken w o w' evs :
  truthy accessToken = true →
  Forall (fun entry => ∃ other, other ≠ accessToken
                                ∧ CacheEntry.key entry = cacheKey_of other) (cache w) →
  getGitHubStats env fuel (Token accessToken) w = (o, w', evs) →
  head evs = Some (clock w, CacheGet (cacheKey_of accessToken) false)
  ∧ first_remote_call evs = Some (lastCall w').
Proof.
  intros Ht Hothers H. eapply getGitHubStats_miss_start; [done | | exact H].
  unfold cache_lookup.
  destruct (find (has_key (cacheKey_of accessToken)) (cache w)) as [entry |] eqn:Hfind;
    [| done].
  apply find_has_key in Hfind as [Hkey Hin].
  rewrite Forall_forall in Hothers.
  destruct (Hothers entry) as (other & Hne & Hk); [by apply list_elem_of_In |].
  unfold has_key in Hkey. apply String.eqb_eq in Hkey. rewrite Hk in Hkey.
  apply cacheKey_of_inj in Hkey. congruence.
Qed.

Lemma getGitHubStats_other_tokens_witness :
  ∃ r w1 evs1 o2 w2' evs2,
    getGitHubStats Sample.env 5 (Token "ghp_example") (boot 1700000000000)
      = (Returned r, w1, evs1)
    ∧ getGitHubStats Sample.env 5 (Token "ghp_other") w1 = (o2, w2', evs2)
    ∧ head evs2 = Some (clock w1, CacheGet (cacheKey_of "ghp_other") false).
Proof.
  destruct (getGitHubStats Sample.env 5 (Token "ghp_example") (boot 1700000000000))
    as [[o1 w1] evs1] eqn:H1.
  assert (Hw : ∃ r, o1 = Returned r
             ∧ Forall (fun entry => ∃ other, other ≠ "ghp_other"
                         ∧ CacheEntry.key entry = cacheKey_of other) (cache w1)).
  { vm_compute in H1. injection H1 as <- <- _. eexists. split; [reflexivity |].
    constructor; [| constructor]. by exists "ghp_example". }
  destruct Hw as (r & -> & Hothers).
  destruct (getGitHubStats Sample.env 5 (Token "ghp_other") w1) as [[o2 w2'] evs2] eqn:H2.
  exists r, w1, evs1, o2, w2', evs2. split; [reflexivity |]. split; [exact H2 |].
  exact (proj1 (getGitHubStats_other_tokens Sample.env 5 "ghp_other" w1 o2 w2' evs2
                  eq_refl Hothers H2)).
Defined.

(** ** Size of the cache *)

Lemma getGitHubStats_cache_cases env fuel accessToken w o w' evs :
  getGitHubStats env fuel accessToken w = (o, w', evs) →
  cache w' = cache w
  ∨ (∃ key entry, find (has_key key) (cache w) = Some entry
                  ∧ cache w' = entry :: without key (cache w))
  ∨ (∃ key value t,
       cache w' = take max (CacheEntry.mk key value t :: without key (cache w))).
Proof.
  intros H. destruct accessToken as [| | accessToken];
    try (injection H as <- <- <-; by left).
  destruct (truthy accessToken) eqn:Ht;
    [| unfold getGitHubStats in H; rewrite Ht in H; injection H as <- <- <-; by left].
  destruct (cache_lookup (clock w) (cacheKey_of accessToken) (cache w)) as [entry |] eqn:Hl.
  - rewrite (getGitHubStats_hit _ _ _ _ _ Ht Hl) in H. injection H as <- <- <-.
    apply cache_lookup_Some in Hl as [Hfind _]. right; left. by eexists _, _.
  - rewrite getGitHubStats_miss, try_catch_rethrow in H by done.
    destruct (fetch_stats env fuel accessToken w) as [[o1 w1] evs1] eqn:Hf.
    destruct o1 as [r | e1 |]; injection H as <- <- <-.
    + apply fetch_stats_Returned in Hf as (user & who1 & who2 & who3 & who4 & t & Hf).
      destruct Hf as (_ & _ & _ & _ & _ & _ & ->). right; right. by eexists _, _, _.
    + apply guarded_fetch_stats in Hf as [_ Hkeep]. left. by destruct Hkeep.
    + apply guarded_fetch_stats in Hf as [_ Hkeep]. left. by destruct Hkeep.
Qed.

Lemma without_keys key c :
  NoDup (map CacheEntry.key c) →
  NoDup (map CacheEntry.key (without key c))
  ∧ ¬ In key (map CacheEntry.key (without key c)).
Proof.
  intros Hnd. split.
  - eapply sublist_NoDup; [exact Hnd |]. apply fmap_sublist, sublist_filter.
  - intros Hin. apply in_map_iff in Hin as (e & Hk & He).
    apply list_elem_of_In in He. unfold without in He.
    apply list_elem_of_filter in He as [Hne _].
    unfold has_key in Hne. rewrite <- Hk, String.eqb_refl in Hne. done.
Qed.

Lemma cache_shape_step env fuel accessToken w o w' evs :
  cache_shape (cache w) →
  getGitHubStats env fuel accessToken w = (o, w', evs) →
  cache_shape (cache w').
Proof.
  intros [Hlen Hnd] H.
  apply getGitHubStats_cache_cases in H
    as [-> | [(key & entry & Hfind & ->) | (key & value & t & ->)]]; [done | |].
  - apply find_has_key in Hfind as [Hkey Hin].
    destruct (without_keys key _ Hnd) as [Hnd' Hfresh]. split.
    + simpl. assert (length (without key (cache w)) < length (cache w))%nat; [| lia].
      unfold without. apply (length_filter_lt _ _ entry); [by apply list_elem_of_In |].
      rewrite Hkey. simpl. tauto.
    + simpl. apply NoDup_cons. split; [| done].
      unfold has_key in Hkey. apply String.eqb_eq in Hkey as <-.
      by rewrite list_elem_of_In.
  - destruct (without_keys key _ Hnd) as [Hnd' Hfresh]. split.
    + rewrite length_take. lia.
    + eapply sublist_NoDup; [| apply fmap_sublist, sublist_take].
      simpl. apply NoDup_cons. split; [| done]. by rewrite list_elem_of_In.
Qed.

(** The cache of a running process never holds more than 100 entries and
    never two entries under the same key. *)
Theorem reachable_cache_shape w :
  reachable w →
  (length (cache w) ≤ 100)%nat ∧ NoDup (map CacheEntry.key (cache w)).
Proof.
  induction 1 as [now | ms w Hms Hw IH | env fuel accessToken w o w' evs Hw IH Hrun].
  - split; [simpl; lia | constructor].
  - exact IH.
  - by apply (cache_shape_step _ _ _ _ _ _ _ IH Hrun).
Qed.

Lemma reachable_cache_shape_witness :
  ∃ o1 w1 evs1 o2 w2 evs2,
    getGitHubStats Sample.env 5 (Token "ghp_example") (boot 1700000000000)
      = (o1, w1, evs1)
    ∧ getGitHubStats Sample.env 5 (Token "ghp_other") w1 = (o2, w2, evs2)
    ∧ length (cache w2) = 2%nat
    ∧ NoDup (map CacheEntry.key (cache w2)).
Proof.
  destruct (getGitHubStats Sample.env 5 (Token "ghp_example") (boot 1700000000000))
    as [[o1 w1] evs1] eqn:H1.
  destruct (getGitHubStats Sample.env 5 (Token "ghp_other") w1) as [[o2 w2] evs2] eqn:H2.
  exists o1, w1, evs1, o2, w2, evs2. split; [reflexivity |]. split; [exact H2 |].
  split.
  - vm_compute in H1. injection H1 as _ <- _. vm_compute in H2. injection H2 as _ <- _.
    reflexivity.
  - apply (reachable_cache_shape w2).
    apply (reachable_call Sample.env 5 (Token "ghp_other") w1 o2 w2 evs2); [| exact H2].
    exact (reachable_call Sample.env 5 (Token "ghp_example") (boot 1700000000000)
             o1 w1 evs1 (reachable_boot 1700000000000) H1).
Defined.

(** ** Every report the function returns *)

Lemma languages_of_names_NoDup repoStats :
  NoDup (map LanguageShare.name (languages_of (languageStats_of repoStats))).
Proof.
  unfold languages_of. rewrite Array_sort_perm, <- list_fmap_compose.
  apply fold_count_language_NoDup. constructor.
Qed.

Lemma result_of_well_formed tz user repos who who' :
  well_formed (result_of tz user repos who who').
Proof.
  split; [by rewrite result_of_contributionsByDay |].
  split; [unfold result_of; by destruct (visit_calendar _ _) |].
  rewrite result_of_repos, result_of_languages.
  split; [| split; [| apply languages_of_names_NoDup]].
  - induction (map repoStat repos) as [| a l IH]; simpl; [constructor |].
    by apply sort_insert_descending.
  - rewrite Array_sort_perm. apply Forall_forall. intros s Hs.
    by apply list_elem_of_fmap in Hs as (repo & -> & _).
Qed.

(** Every report [getGitHubStats] returns in a running process, fresh or from
    the cache: seven weekday buckets, Monday first; [totalRepos] is the length
    of the repository list; the repository list is in descending order of
    commits, with equal commit and contribution counts in every record; and no
    language is listed twice. *)
Theorem getGitHubStats_well_formed env fuel accessToken w r w' evs :
  reachable w →
  getGitHubStats env fuel accessToken w = (Returned r, w', evs) →
  map DayCount.day (Report.contributionsByDay r)
  = ["Monday"; "Tuesday"; "Wednesday"; "Thursday"; "Friday"; "Saturday"; "Sunday"]
  ∧ Report.totalRepos r = N.of_nat (length (Report.repos r))
  ∧ StronglySorted (fun x y => (RepoStats.commits y ≤ RepoStats.commits x)%N)
      (Report.repos r)
  ∧ Forall (fun s => RepoStats.commits s = RepoStats.contributions s) (Report.repos r)
  ∧ NoDup (map LanguageShare.name (Report.languages r)).
Proof.
  intros Hw H.
  pose proof (reachable_cache well_formed result_of_well_formed w Hw) as Hc.
  destruct (getGitHubStats_preserves well_formed result_of_well_formed
              _ _ _ _ _ _ _ Hc H) as [_ Hr].
  by apply Hr.
Qed.

Lemma getGitHubStats_well_formed_witness :
  ∃ o1 w1 evs1 r w2 evs2,
    getGitHubStats Sample.env 5 (Token "ghp_example") (boot 1700000000000)
      = (o1, w1, evs1)
    ∧ getGitHubStats Sample.flaky 0 (Token "ghp_example") w1 = (Returned r, w2, evs2)
    ∧ Report.totalRepos r = N.of_nat (length (Report.repos r))
    ∧ NoDup (map LanguageShare.name (Report.languages r)).
Proof.
  destruct (getGitHubStats Sample.env 5 (Token "ghp_example") (boot 1700000000000))
    as [[o1 w1] evs1] eqn:H1.
  destruct (getGitHubStats Sample.flaky 0 (Token "ghp_example") w1)
    as [[o2 w2] evs2] eqn:H2.
  assert (Ho : ∃ r, o2 = Returned r).
  { vm_compute in H1. injection H1 as _ <- _.
    vm_compute in H2. injection H2 as <- _ _. eauto. }
  destruct Ho as [r ->]. exists o1, w1, evs1, r, w2, evs2.
  split; [reflexivity |]. split; [exact H2 |].
  destruct (getGitHubStats_well_formed Sample.flaky 0 (Token "ghp_example") w1 r w2 evs2
              (reachable_call Sample.env 5 (Token "ghp_example") (boot 1700000000000)
                 o1 w1 evs1 (reachable_boot 1700000000000) H1) H2)
    as (_ & Htotal & _ & _ & Hnames).
  split; [exact Htotal | exact Hnames].
Defined.

(** ** The rate limiter under interleaving *)

Lemma spaced_after_step since j c c' :
  spaced_after since j c → throttle_step c c' → spaced_after since j c'.
Proof.
  intros (Hs & Hl & Hj) Hstep.
  destruct Hstep as [w cs i Hi Hwait | w cs i Hi Hpass | w cs i entered wake Hi Hwake
                    | w cs ms Hms]; unfold spaced_after in *; simpl in *.
  - split; [done |]. split; [done |].
    destruct (decide (i = j)) as [-> | Hne].
    + rewrite list_lookup_insert_eq by (by eapply lookup_lt_Some). lia.
    + by rewrite list_lookup_insert_ne.
  - split; [lia |]. split; [lia |].
    destruct (decide (i = j)) as [-> | Hne].
    + rewrite list_lookup_insert_eq by (by eapply lookup_lt_Some). lia.
    + by rewrite list_lookup_insert_ne.
  - split; [lia |]. split; [lia |].
    destruct (decide (i = j)) as [-> | Hne].
    + rewrite list_lookup_insert_eq by (by eapply lookup_lt_Some).
      rewrite Hi in Hj. lia.
    + by rewrite list_lookup_insert_ne.
  - split; [done |]. split; [lia | done].
Qed.

Lemma stamped_step c c' : stamped c → throttle_step c c' → stamped c'.
Proof.
  intros [Hl Hc] Hstep.
  destruct Hstep as [w cs i Hi Hwait | w cs i Hi Hpass | w cs i entered wake Hi Hwake
                    | w cs ms Hms]; unfold stamped in *; simpl in *.
  - split; [done |]. intros k e s Hk.
    destruct (decide (i = k)) as [-> | Hne].
    + rewrite list_lookup_insert_eq in Hk by (by eapply lookup_lt_Some). discriminate.
    + rewrite list_lookup_insert_ne in Hk by done. by eapply Hc.
  - split; [lia |]. intros k e s Hk.
    destruct (decide (i = k)) as [-> | Hne].
    + rewrite list_lookup_insert_eq in Hk by (by eapply lookup_lt_Some).
      injection Hk as _ <-. lia.
    + rewrite list_lookup_insert_ne in Hk by done. specialize (Hc _ _ _ Hk). lia.
  - split; [lia |]. intros k e s Hk.
    destruct (decide (i = k)) as [-> | Hne].
    + rewrite list_lookup_insert_eq in Hk by (by eapply lookup_lt_Some).
      injection Hk as _ <-. lia.
    + rewrite list_lookup_insert_ne in Hk by done. specialize (Hc _ _ _ Hk). lia.
  - split; [lia |]. intros k e s Hk. by eapply Hc.
Qed.

Lemma stamped_steps c c' : stamped c → throttle_steps c c' → stamped c'.
Proof.
  intros Hc Hsteps. induction Hsteps as [c | c1 c2 c3 Hstep _ IH]; [done |].
  apply IH. by eapply stamped_step.
Qed.

Lemma spaced_after_steps since j c c' :
  spaced_after since j c → throttle_steps c c' → spaced_after since j c'.
Proof.
  intros Hc Hsteps. induction Hsteps as [c | c1 c2 c3 Hstep _ IH]; [done |].
  apply IH. by eapply spaced_after_step.
Qed.

(** However callers interleave: start with no caller inside the rate limiter
    and a timestamp that is not ahead of the clock. Once a caller has started
    its remote calls, every caller that has not yet entered the rate limiter
    by then starts its own remote calls at least [minInterval] later. *)
Theorem throttle_spaces_later_callers w0 cs0 w1 cs1 w2 cs2 i j
    entered1 since1 entered2 since2 :
  Forall (fun caller => caller = Idle) cs0 →
  lastCall w0 ≤ clock w0 →
  throttle_steps (w0, cs0) (w1, cs1) →
  cs1 !! i = Some (Calling entered1 since1) →
  cs1 !! j = Some Idle →
  throttle_steps (w1, cs1) (w2, cs2) →
  cs2 !! j = Some (Calling entered2 since2) →
  since1 + minInterval ≤ since2.
Proof.
  intros Hidle Hl Hsteps1 Hi Hj Hsteps2 Hj'.
  assert (H0 : stamped (w0, cs0)).
  { split; [done |]. simpl. intros k e s Hk. rewrite Forall_forall in Hidle.
    apply list_elem_of_lookup_2 in Hk. by apply Hidle in Hk. }
  destruct (stamped_steps _ _ H0 Hsteps1) as [Hl1 Hc1]. simpl in *.
  assert (Hinv : spaced_after since1 j (w1, cs1)).
  { unfold spaced_after. simpl. rewrite Hj. split; [by eapply Hc1 | done]. }
  destruct (spaced_after_steps _ _ _ _ Hinv Hsteps2) as (_ & _ & Hend).
  simpl in Hend. by rewrite Hj' in Hend.
Qed.

Lemma throttle_spaces_later_callers_witness :
  ∃ w1 w2,
    throttle_steps
      ({| clock := 1700000000000; lastCall := 0; cache := []; calls := 0 |}, [Idle; Idle])
      (w1, [Calling 1700000000000 1700000000000; Idle])
    ∧ throttle_steps (w1, [Calling 1700000000000 1700000000000; Idle])
        (w2, [Calling 1700000000000 1700000000000; Calling 1700000000100 1700000001000])
    ∧ 1700000000000 + minInterval ≤ 1700000001000.
Proof.
  set (w0 := {| clock := 1700000000000; lastCall := 0; cache := []; calls := 0 |}).
  assert (Hsteps1 : throttle_steps (w0, [Idle; Idle])
            (stamp w0, [Calling 1700000000000 1700000000000; Idle])).
  { eapply steps_step; [apply (step_enter_pass _ _ 0%nat); [reflexivity | done] |].
    apply steps_refl. }
  assert (Hsteps2 : throttle_steps (stamp w0, [Calling 1700000000000 1700000000000; Idle])
            (stamp (advance 900 (advance 100 (stamp w0))),
             [Calling 1700000000000 1700000000000;
              Calling 1700000000100 1700000001000])).
  { eapply steps_step; [apply (step_time _ _ 100); discriminate |].
    eapply steps_step; [apply (step_enter_wait _ _ 1%nat); [reflexivity | reflexivity] |].
    eapply steps_step; [apply (step_time _ _ 900); discriminate |].
    eapply steps_step; [eapply (step_resume _ _ 1%nat); [reflexivity | done] |].
    apply steps_refl. }
  exists (stamp w0), (stamp (advance 900 (advance 100 (stamp w0)))).
  split; [exact Hsteps1 |]. split; [exact Hsteps2 |].
  apply (throttle_spaces_later_callers w0 [Idle; Idle]
           (stamp w0) [Calling 1700000000000 1700000000000; Idle]
           (stamp (advance 900 (advance 100 (stamp w0))))
           [Calling 1700000000000 1700000000000; Calling 1700000000100 1700000001000]
           0%nat 1%nat 1700000000000 1700000000000 1700000000100 1700000001000);
    [by repeat constructor | done | exact Hsteps1 | reflexivity | reflexivity
    | exact Hsteps2 | reflexivity].
Defined.

(** ** The weekday table as a whole *)






(** ** The counts behind the language shares *)





